(** * SerializedModuleLoader: locating, loading and querying serialized modules

    A shallow embedding of [lib/Serialization/SerializedModuleLoader.cpp].
    The loader's own state (the registered bitstreams and the list of loaded
    module files) and the parts of the [ASTContext] it touches (the module
    table, the generation counter, the diagnostic sink, the allocated module
    handles) are threaded explicitly; assertions and [llvm_unreachable]
    abort the computation.  Everything the loader calls but does not define
    (the LLVM path and file primitives, the source manager, the module file
    reader) is gathered in an environment record. *)

From stdpp Require Import gmap strings list.
From Stdlib Require Import ZArith Lia.

Open Scope Z_scope.
Open Scope string_scope.
Open Scope list_scope.

(** ** Data model *)

Abbreviation Identifier := string (only parsing).

(** [SourceLoc] wraps a pointer into a source buffer; the null pointer is the
    invalid location. *)
Inductive SourceLoc : Type :=
| InvalidLoc
| ValidLoc (offset : N).

Definition isValid (loc : SourceLoc) : bool :=
  match loc with
  | InvalidLoc => false
  | ValidLoc _ => true
  end.

(** [typedef std::pair<Identifier, SourceLoc> AccessPathElem;] *)
Abbreviation AccessPathElem := (Identifier * SourceLoc)%type (only parsing).
Abbreviation AccessPathTy := (list AccessPathElem) (only parsing).

Record MemoryBuffer : Type := {
  BufferIdentifier : string;
  Contents : string
}.

(** [llvm::error_code]: the numeric value, zero meaning success. *)
Abbreviation error_code := Z (only parsing).
Definition errc_success : error_code := 0.
Definition errc_no_such_file_or_directory : error_code := 2.

(** What reading a file gives: its contents, or a non-zero error number. *)
Inductive FileResult : Type :=
| FileContents (buffer : MemoryBuffer)
| FileError (errno : positive).

Inductive ModuleStatus : Type :=
| Valid
| FormatTooNew
| Malformed
| MissingDependency.

Record Dependency : Type := {
  RawAccessPath : string;
  isLoaded : bool
}.

Inductive Decl : Type := MkDecl (id : N).
Abbreviation ValueDecl := Decl (only parsing).
Abbreviation OperatorDecl := Decl (only parsing).
Abbreviation NominalTypeDecl := Decl (only parsing).
Abbreviation ImportedModule := string (only parsing).
Abbreviation LinkLibrary := string (only parsing).
Abbreviation KnownProtocolKind := N (only parsing).

Inductive DeclKind : Type := InfixOperator | PrefixOperator | PostfixOperator.
Inductive NLKind : Type := UnqualifiedLookup | QualifiedLookup.

(** The module file reader ([ModuleFile.h]) as the loader sees it: a status,
    the dependency list, and what each query answers. *)
Record ModuleFile : Type := {
  getStatus : ModuleStatus;
  getDependencies : list Dependency;
  mf_lookupValue : Identifier -> list ValueDecl;
  mf_lookupOperator : Identifier -> DeclKind -> option OperatorDecl;
  mf_getImportedModules : bool -> list ImportedModule;
  mf_lookupVisibleDecls : AccessPathTy -> NLKind -> list ValueDecl;
  mf_lookupClassMembers : AccessPathTy -> list ValueDecl;
  mf_lookupClassMember : AccessPathTy -> Identifier -> list ValueDecl;
  mf_getLinkLibraries : list LinkLibrary;
  mf_getDisplayDecls : list Decl
}.

(** A [SerializedModule] handle; [File] is the reader reference, [None] for
    the null pointer. *)
Record SerializedModule : Type := {
  Name : Identifier;
  DebugModuleName : string;
  File : option ModuleFile
}.

Definition setFile (f : option ModuleFile) (m : SerializedModule) : SerializedModule :=
  {| Name := Name m; DebugModuleName := DebugModuleName m; File := f |}.

(** Module handles are allocated in the context; a pointer is the index of
    the allocation. *)
Abbreviation ModulePtr := nat (only parsing).

Inductive Diag : Type :=
| sema_opening_import (name : string) (message : string)
| serialization_module_too_new
| serialization_malformed_module
| serialization_missing_single_dependency (dependency : string)
| serialization_missing_dependencies (names : string).

Abbreviation Diagnostic := (SourceLoc * Diag)%type (only parsing).

(** Calls that leave the loader: lookups in the registered bitstreams, file
    reads, runs of the module file reader, and the calls that
    [loadExtensions] and [loadDeclsConformingTo] delegate to a module file. *)
Inductive Event : Type :=
| EvFindBitstream (key : string)
| EvGetFile (filename : string)
| EvLoad (bufferIdentifier : string) (status : ModuleStatus)
| EvLoadExtensions (file : ModuleFile) (nominal : NominalTypeDecl)
| EvLoadDeclsConformingTo (file : ModuleFile) (kind : KnownProtocolKind).

(** The generation counter is an [unsigned]. *)
Abbreviation Generation := Z (only parsing).
Definition UINT_MODULUS : Z := 2 ^ 32.

(** ** The environment of the loader *)

Record Env : Type := {
  SERIALIZED_MODULE_EXTENSION : string;
  (** [llvm::sys::path::append] and [llvm::sys::path::parent_path] *)
  path_append : string -> string -> string;
  parent_path : string -> string;
  (** the file system behind [llvm::MemoryBuffer::getFile] *)
  readFile : string -> FileResult;
  (** [llvm::error_code::message] *)
  error_message : error_code -> string;
  (** [ctx.SourceMgr] *)
  findBufferContainingLoc : SourceLoc -> N;
  getMemoryBuffer : N -> MemoryBuffer;
  (** [ctx.ImportSearchPaths] *)
  ImportSearchPaths : list string;
  (** [ModuleFile::load] *)
  ModuleFile_load : MemoryBuffer -> ModuleStatus * option ModuleFile;
  (** Modelled from the spec: [ModuleFile::associateWithModule] is defined
      outside [src/].  It "attempts to bind each dependency to an
      already-registered module and returns whether all dependencies are now
      satisfied": it reads the module table and leaves the module file with
      its status and its dependencies' loaded flags brought up to date. *)
  associateWithModule :
    ModuleFile -> ModulePtr -> gmap string ModulePtr -> bool * ModuleFile
}.

(** ** The state threaded through the loader *)

Record State : Type := {
  (** [SerializedModuleLoader::Bitstreams]: name to owning buffer pointer *)
  Bitstreams : gmap string (option MemoryBuffer);
  (** [SerializedModuleLoader::LoadedModuleFiles] *)
  LoadedModuleFiles : list (ModuleFile * Generation);
  (** [Ctx.LoadedModules] *)
  LoadedModules : gmap string ModulePtr;
  (** the counter behind [Ctx.bumpGeneration] and [Ctx.getCurrentGeneration] *)
  CurrentGeneration : Generation;
  (** [Ctx.Diags] *)
  Diags : list Diagnostic;
  (** the module handles allocated in [Ctx] *)
  Modules : list SerializedModule;
  Trace : list Event
}.

Definition set_Bitstreams (v : gmap string (option MemoryBuffer)) (s : State) : State :=
  {| Bitstreams := v; LoadedModuleFiles := LoadedModuleFiles s;
     LoadedModules := LoadedModules s; CurrentGeneration := CurrentGeneration s;
     Diags := Diags s; Modules := Modules s; Trace := Trace s |}.

Definition set_LoadedModuleFiles (v : list (ModuleFile * Generation)) (s : State) : State :=
  {| Bitstreams := Bitstreams s; LoadedModuleFiles := v;
     LoadedModules := LoadedModules s; CurrentGeneration := CurrentGeneration s;
     Diags := Diags s; Modules := Modules s; Trace := Trace s |}.

Definition set_LoadedModules (v : gmap string ModulePtr) (s : State) : State :=
  {| Bitstreams := Bitstreams s; LoadedModuleFiles := LoadedModuleFiles s;
     LoadedModules := v; CurrentGeneration := CurrentGeneration s;
     Diags := Diags s; Modules := Modules s; Trace := Trace s |}.

Definition set_CurrentGeneration (v : Generation) (s : State) : State :=
  {| Bitstreams := Bitstreams s; LoadedModuleFiles := LoadedModuleFiles s;
     LoadedModules := LoadedModules s; CurrentGeneration := v;
     Diags := Diags s; Modules := Modules s; Trace := Trace s |}.

Definition set_Diags (v : list Diagnostic) (s : State) : State :=
  {| Bitstreams := Bitstreams s; LoadedModuleFiles := LoadedModuleFiles s;
     LoadedModules := LoadedModules s; CurrentGeneration := CurrentGeneration s;
     Diags := v; Modules := Modules s; Trace := Trace s |}.

Definition set_Modules (v : list SerializedModule) (s : State) : State :=
  {| Bitstreams := Bitstreams s; LoadedModuleFiles := LoadedModuleFiles s;
     LoadedModules := LoadedModules s; CurrentGeneration := CurrentGeneration s;
     Diags := Diags s; Modules := v; Trace := Trace s |}.

Definition set_Trace (v : list Event) (s : State) : State :=
  {| Bitstreams := Bitstreams s; LoadedModuleFiles := LoadedModuleFiles s;
     LoadedModules := LoadedModules s; CurrentGeneration := CurrentGeneration s;
     Diags := Diags s; Modules := Modules s; Trace := v |}.

(** ** A state monad with abortion *)

Inductive Outcome (A : Type) : Type :=
| Done (a : A) (s : State)
| Abort (why : string).
Arguments Done {A} a s.
Arguments Abort {A} why.

Definition M (A : Type) : Type := State -> Outcome A.

#[global] Instance M_ret : MRet M := fun A a s => Done a s.
#[global] Instance M_bind : MBind M := fun A B f m s =>
  match m s with
  | Done a s' => f a s'
  | Abort why => Abort why
  end.

Definition abort {A : Type} (why : string) : M A := fun _ => Abort why.

(** [assert(cond && why)] *)
Definition assert (cond : bool) (why : string) : M unit :=
  if cond then mret tt else abort why.

Definition gets {A : Type} (f : State -> A) : M A := fun s => Done (f s) s.
Definition modify (f : State -> State) : M unit := fun s => Done tt (f s).

Definition record (ev : Event) : M unit :=
  fun s => Done tt (set_Trace (Trace s ++ [ev]) s).

(** [Ctx.Diags.diagnose(loc, diag, args...)] *)
Definition diagnose (loc : SourceLoc) (d : Diag) : M unit :=
  fun s => Done tt (set_Diags (Diags s ++ [(loc, d)]) s).

(** Modelled from the spec: [ASTContext::bumpGeneration] is defined outside
    [src/]; the counter is "incremented" by one, here on an [unsigned]. *)
Definition nextGeneration (generation : Generation) : Generation :=
  (generation + 1) mod UINT_MODULUS.

(** [Ctx.bumpGeneration()] *)
Definition bumpGeneration : M unit :=
  fun s => Done tt (set_CurrentGeneration (nextGeneration (CurrentGeneration s)) s).

(** [Ctx.getCurrentGeneration()] *)
Definition getCurrentGeneration : M Generation :=
  fun s => Done (CurrentGeneration s) s.

(** [llvm::MemoryBuffer::getFile(filename, buffer)]: the error code, and the
    buffer when there is none. *)
Definition getFile (E : Env) (filename : string) : M (error_code * option MemoryBuffer) :=
  record (EvGetFile filename);;
  mret (match readFile E filename with
        | FileContents buffer => (errc_success, Some buffer)
        | FileError errno => (Zpos errno, None)
        end).

(** ** findModule *)

Definition moduleFilenameOf (E : Env) (name : Identifier) : string :=
  name +:+ "." +:+ SERIALIZED_MODULE_EXTENSION E.

(** The loop over [ctx.ImportSearchPaths]; [err] is the error of the
    candidate tried last. *)
Fixpoint searchImportPaths (E : Env) (paths : list string) (moduleFilename : string)
    (err : error_code) : M (error_code * option MemoryBuffer) :=
  match paths with
  | [] => mret (err, None)
  | Path :: rest =>
      let inputFilename := path_append E Path moduleFilename in
      '(err, buffer) ← getFile E inputFilename;
      if (err =? errc_success)%Z then mret (err, buffer)
      else searchImportPaths E rest moduleFilename err
  end.

Definition findModule (E : Env) (moduleID : AccessPathElem)
    : M (error_code * option MemoryBuffer) :=
  let moduleFilename := moduleFilenameOf E moduleID.1 in
  (* First, search in the directory corresponding to the import location. *)
  found ←
    (if isValid moduleID.2 then
       let currentBufferID := findBufferContainingLoc E moduleID.2 in
       let importingBuffer := getMemoryBuffer E currentBufferID in
       let currentDirectory := parent_path E (BufferIdentifier importingBuffer) in
       if negb (String.eqb currentDirectory EmptyString) then
         let inputFilename := path_append E currentDirectory moduleFilename in
         '(err, buffer) ← getFile E inputFilename;
         if (err =? errc_success)%Z then mret (Some (err, buffer)) else mret None
       else mret None
     else mret None);
  match found with
  | Some r => mret r
  | None =>
      (* Second, search in the current directory. *)
      '(err, buffer) ← getFile E moduleFilename;
      if (err =? errc_success)%Z then mret (err, buffer)
      else
        (* If we fail, search each import search path. *)
        searchImportPaths E (ImportSearchPaths E) moduleFilename err
  end.

(** ** loadModule *)

(** [spath]: the path elements appended one after the other. *)
Definition bitstreamKey (E : Env) (path : AccessPathTy) : string :=
  fold_left (fun spath el => path_append E spath el.1) path EmptyString.

(** Lines 93-104: the lookup in the registered bitstreams.  [take()] moves
    the buffer out of the entry's owning pointer and leaves the entry in the
    map, holding null. *)
Definition takeRegisteredBitstream (E : Env) (path : AccessPathTy) : M (option MemoryBuffer) :=
  bitstreams ← gets Bitstreams;
  if (size bitstreams =? 0)%nat then mret None
  else
    let spath := bitstreamKey E path in
    record (EvFindBitstream spath);;
    match bitstreams !! spath with
    | Some owned =>
        modify (set_Bitstreams (<[spath := None]> bitstreams));;
        mret owned
    | None => mret None
    end.

(** Lines 91-115: the input file, or [None] where the source returns
    [nullptr]. *)
Definition locateInputFile (E : Env) (path : AccessPathTy) (moduleID : AccessPathElem)
    : M (option MemoryBuffer) :=
  (* First see if we find it in the registered bitstreams. *)
  inputFile ← takeRegisteredBitstream E path;
  match inputFile with
  | Some _ => mret inputFile
  | None =>
      (* Otherwise look on disk. *)
      '(err, inputFile) ← findModule E moduleID;
      if negb (err =? errc_success)%Z then
        (if negb (err =? errc_no_such_file_or_directory)%Z
         then diagnose moduleID.2 (sema_opening_import moduleID.1 (error_message E err))
         else mret tt);;
        mret None
      else
        assert (bool_decide (is_Some inputFile)) "inputFile";;
        mret inputFile
  end.

(** Modelled from the spec: [interleave] ([swift/Basic/STLExtras.h]) is
    defined outside [src/].  The missing dependencies are "joined ... in
    their original declaration order": [each] runs on every element in
    order, [between] between two consecutive elements.  Both append to the
    string being built, which is threaded as [acc]. *)
Fixpoint interleave_rest {A : Type} (c : list A) (each : A -> string) (between : string)
    (acc : string) : string :=
  match c with
  | [] => acc
  | next :: rest => interleave_rest rest each between (acc +:+ between +:+ each next)
  end.

Definition interleave {A : Type} (c : list A) (each : A -> string) (between : string)
    (acc : string) : string :=
  match c with
  | [] => acc
  | first :: rest => interleave_rest rest each between (acc +:+ each first)
  end.

Definition isMissingDependency (status : ModuleStatus) : bool :=
  match status with
  | MissingDependency => true
  | _ => false
  end.

(** [std::copy_if] of the dependencies that are not loaded. *)
Definition missingDependencies (dependencies : list Dependency) : list Dependency :=
  List.filter (fun dependency => negb (isLoaded dependency)) dependencies.

(** Lines 154-181: the diagnostic for the dependencies that are not loaded. *)
Definition diagnoseMissing (loc : SourceLoc) (dependencies : list Dependency) : M unit :=
  let missing := missingDependencies dependencies in
  assert (negb (length missing =? 0)%nat) "unknown missing dependency?";;
  match missing with
  | [front] =>
      diagnose loc (serialization_missing_single_dependency (RawAccessPath front))
  | _ =>
      let missingNames := "'" in
      let missingNames := interleave missing RawAccessPath "', '" missingNames in
      let missingNames := missingNames +:+ "'" in
      diagnose loc (serialization_missing_dependencies missingNames)
  end.

(** [new (Ctx) SerializedModule(...)] *)
Definition allocateModule (m : SerializedModule) : M ModulePtr :=
  fun s => Done (length (Modules s)) (set_Modules (Modules s ++ [m]) s).

(** A write through a module pointer. *)
Definition updateModule (module : ModulePtr) (f : SerializedModule -> SerializedModule) : M unit :=
  modify (fun s => set_Modules (alter f module (Modules s)) s).

(** Lines 146-185: association of a parsed module file with its handle. *)
Definition associate (E : Env) (moduleID : AccessPathElem) (module : ModulePtr)
    (loadedModuleFile : ModuleFile) : M unit :=
  table ← gets LoadedModules;
  let '(success, loadedModuleFile) := associateWithModule E loadedModuleFile module table in
  (* [module->File] points to the object just brought up to date *)
  updateModule module (setFile (Some loadedModuleFile));;
  if success then
    generation ← getCurrentGeneration;
    modify (fun s =>
      set_LoadedModuleFiles (LoadedModuleFiles s ++ [(loadedModuleFile, generation)]) s)
  else
    assert (isMissingDependency (getStatus loadedModuleFile)) "MissingDependency";;
    diagnoseMissing moduleID.2 (getDependencies loadedModuleFile);;
    updateModule module (setFile None).

(** Lines 117-187: what [loadModule] does with the input file it found. *)
Definition loadInputFile (E : Env) (moduleID : AccessPathElem) (inputFile : MemoryBuffer)
    : M ModulePtr :=
  let DebugModuleName := BufferIdentifier inputFile in
  let '(err, loaded) := ModuleFile_load E inputFile in
  record (EvLoad DebugModuleName err);;
  loadedModuleFile ←
    match err with
    | Valid => bumpGeneration;; mret loaded
    | FormatTooNew => diagnose moduleID.2 serialization_module_too_new;; mret None
    | Malformed => diagnose moduleID.2 serialization_malformed_module;; mret None
    | MissingDependency => abort "dependencies haven't been loaded yet"
    end;
  module ← allocateModule
    {| Name := moduleID.1; DebugModuleName := DebugModuleName; File := loadedModuleFile |};
  (* Whether we succeed or fail, don't try to load this module again. *)
  modify (fun s => set_LoadedModules (<[moduleID.1 := module]> (LoadedModules s)) s);;
  match loadedModuleFile with
  | Some file => associate E moduleID module file
  | None => mret tt
  end;;
  mret module.

Definition loadModule (E : Env) (importLoc : SourceLoc) (path : AccessPathTy)
    : M (option ModulePtr) :=
  (* FIXME: Swift submodules? *)
  if (1 <? length path)%nat then mret None
  else
    match path with
    | [] => abort "path[0]"
    | moduleID :: _ =>
        located ← locateInputFile E path moduleID;
        match located with
        | None => mret None
        | Some inputFile =>
            module ← loadInputFile E moduleID inputFile;
            mret (Some module)
        end
    end.

(** A sequence of load requests, one after the other. *)
Fixpoint loadModules (E : Env) (requests : list (SourceLoc * AccessPathTy))
    : M (list (option ModulePtr)) :=
  match requests with
  | [] => mret []
  | (importLoc, path) :: rest =>
      module ← loadModule E importLoc path;
      modules ← loadModules E rest;
      mret (module :: modules)
  end.

(** ** The queries *)

(** [cast<SerializedModule>(module)], read through the pointer. *)
Definition derefModule (module : ModulePtr) : M SerializedModule :=
  fun s =>
    match Modules s !! module with
    | Some m => Done m s
    | None => Abort "cast<SerializedModule>(module)"
    end.

Definition lookupValue (module : ModulePtr) (accessPath : AccessPathTy) (name : Identifier)
    (lookupKind : NLKind) (results : list ValueDecl) : M (list ValueDecl) :=
  assert (length accessPath <=? 1)%nat "can only refer to top-level decls";;
  (* If this import is specific to some named type or decl then filter out
     any lookups that don't match. *)
  if match accessPath with
     | [front] => negb (String.eqb front.1 name)
     | _ => false
     end
  then mret results
  else
    m ← derefModule module;
    match File m with
    | None => mret results
    | Some moduleFile => mret (results ++ mf_lookupValue moduleFile name)
    end.

Definition lookupOperator (module : ModulePtr) (name : Identifier) (fixity : DeclKind)
    : M (option OperatorDecl) :=
  m ← derefModule module;
  match File m with
  | None => mret None
  | Some moduleFile => mret (mf_lookupOperator moduleFile name fixity)
  end.

Definition getImportedModules (module : ModulePtr) (imports : list ImportedModule)
    (includePrivate : bool) : M (list ImportedModule) :=
  m ← derefModule module;
  match File m with
  | None => mret imports
  | Some moduleFile => mret (imports ++ mf_getImportedModules moduleFile includePrivate)
  end.

(** The consumer is the list of declarations it has been handed. *)
Definition lookupVisibleDecls (module : ModulePtr) (accessPath : AccessPathTy)
    (consumer : list ValueDecl) (lookupKind : NLKind) : M (list ValueDecl) :=
  m ← derefModule module;
  match File m with
  | None => mret consumer
  | Some moduleFile =>
      mret (consumer ++ mf_lookupVisibleDecls moduleFile accessPath lookupKind)
  end.

(** The loop of [loadExtensions] and [loadDeclsConformingTo] over
    [LoadedModuleFiles]. *)
Fixpoint forEachLoadedSince (entries : list (ModuleFile * Generation))
    (previousGeneration : Generation) (call : ModuleFile -> Event) : M unit :=
  match entries with
  | [] => mret tt
  | modulePair :: rest =>
      (if (modulePair.2 <=? previousGeneration)%Z then mret tt (* continue *)
       else record (call modulePair.1));;
      forEachLoadedSince rest previousGeneration call
  end.

Definition loadExtensions (nominal : NominalTypeDecl) (previousGeneration : Generation)
    : M unit :=
  entries ← gets LoadedModuleFiles;
  forEachLoadedSince entries previousGeneration (fun file => EvLoadExtensions file nominal).

Definition loadDeclsConformingTo (kind : KnownProtocolKind) (previousGeneration : Generation)
    : M unit :=
  entries ← gets LoadedModuleFiles;
  forEachLoadedSince entries previousGeneration (fun file => EvLoadDeclsConformingTo file kind).

Definition lookupClassMembers (module : ModulePtr) (accessPath : AccessPathTy)
    (consumer : list ValueDecl) : M (list ValueDecl) :=
  m ← derefModule module;
  match File m with
  | None => mret consumer
  | Some moduleFile => mret (consumer ++ mf_lookupClassMembers moduleFile accessPath)
  end.

Definition lookupClassMember (module : ModulePtr) (accessPath : AccessPathTy)
    (name : Identifier) (decls : list ValueDecl) : M (list ValueDecl) :=
  m ← derefModule module;
  match File m with
  | None => mret decls
  | Some moduleFile => mret (decls ++ mf_lookupClassMember moduleFile accessPath name)
  end.

(** The callback is the list of libraries it has been called with. *)
Definition getLinkLibraries (module : ModulePtr) (callback : list LinkLibrary)
    : M (list LinkLibrary) :=
  m ← derefModule module;
  match File m with
  | None => mret callback
  | Some moduleFile => mret (callback ++ mf_getLinkLibraries moduleFile)
  end.

Definition getDisplayDecls (module : ModulePtr) (results : list Decl) : M (list Decl) :=
  m ← derefModule module;
  match File m with
  | None => mret results
  | Some moduleFile => mret (results ++ mf_getDisplayDecls moduleFile)
  end.

(** ** The search order, stated on its own *)

Definition importerDirectory (E : Env) (loc : SourceLoc) : string :=
  parent_path E (BufferIdentifier (getMemoryBuffer E (findBufferContainingLoc E loc))).

(** The file names [findModule] tries, in the order it tries them. *)
Definition diskCandidates (E : Env) (moduleID : AccessPathElem) : list string :=
  (if isValid moduleID.2 && negb (String.eqb (importerDirectory E moduleID.2) EmptyString)
   then [path_append E (importerDirectory E moduleID.2) (moduleFilenameOf E moduleID.1)]
   else [])
  ++ moduleFilenameOf E moduleID.1
  :: map (fun Path => path_append E Path (moduleFilenameOf E moduleID.1)) (ImportSearchPaths E).

(** The error code [getFile] gives for a file name. *)
Definition readError (E : Env) (filename : string) : error_code :=
  match readFile E filename with
  | FileContents _ => errc_success
  | FileError errno => Zpos errno
  end.

Definition readBuffer (E : Env) (filename : string) : option MemoryBuffer :=
  match readFile E filename with
  | FileContents buffer => Some buffer
  | FileError _ => None
  end.

(** Reading a list of file names until one can be read: the result and the
    names actually tried. *)
Fixpoint firstReadable (E : Env) (filenames : list string) (err : error_code)
    : error_code * option MemoryBuffer :=
  match filenames with
  | [] => (err, None)
  | filename :: rest =>
      match readFile E filename with
      | FileContents buffer => (errc_success, Some buffer)
      | FileError errno => firstReadable E rest (Zpos errno)
      end
  end.

Fixpoint attempted (E : Env) (filenames : list string) : list string :=
  match filenames with
  | [] => []
  | filename :: rest =>
      match readFile E filename with
      | FileContents _ => [filename]
      | FileError _ => filename :: attempted E rest
      end
  end.

(** The search order as the specification words it: the registered buffers
    under the module's name, the importer's directory when the location is
    valid, the current directory, the configured directories in order. *)
Inductive Candidate : Type :=
| InMemory (key : string)
| OnDisk (filename : string).

Definition searchOrder (E : Env) (moduleID : AccessPathElem) : list Candidate :=
  InMemory moduleID.1
  :: (if isValid moduleID.2
      then [OnDisk (path_append E (importerDirectory E moduleID.2)
                                  (moduleFilenameOf E moduleID.1))]
      else [])
  ++ OnDisk (moduleFilenameOf E moduleID.1)
  :: map (fun Path => OnDisk (path_append E Path (moduleFilenameOf E moduleID.1)))
         (ImportSearchPaths E).

(** The buffer a candidate holds in a given state of the loader. *)
Definition available (E : Env) (s : State) (c : Candidate) : option MemoryBuffer :=
  match c with
  | InMemory key => mjoin (Bitstreams s !! key)
  | OnDisk filename => readBuffer E filename
  end.

Fixpoint firstAvailable (E : Env) (s : State) (candidates : list Candidate)
    : option MemoryBuffer :=
  match candidates with
  | [] => None
  | c :: rest =>
      match available E s c with
      | Some buffer => Some buffer
      | None => firstAvailable E s rest
      end
  end.

(** The loader's state once the registered bitstreams have been looked up. *)
Definition afterBitstreamLookup (E : Env) (path : AccessPathTy) (s : State) : State :=
  set_Bitstreams
    (match Bitstreams s !! bitstreamKey E path with
     | Some _ => <[bitstreamKey E path := None]> (Bitstreams s)
     | None => Bitstreams s
     end)
    (set_Trace
       (Trace s ++ if (size (Bitstreams s) =? 0)%nat then []
                   else [EvFindBitstream (bitstreamKey E path)]) s).

(** The diagnostic of a search on disk, from the error it ends with. *)
Definition searchDiagnostics (E : Env) (moduleID : AccessPathElem) : list Diagnostic :=
  let err := (firstReadable E (diskCandidates E moduleID) errc_success).1 in
  if (err =? errc_success)%Z || (err =? errc_no_such_file_or_directory)%Z then []
  else [(moduleID.2, sema_opening_import moduleID.1 (error_message E err))].

(** The quoted, comma-separated list of the specification. *)
Definition quotedList (names : list string) : string :=
  String.concat ", " (map (fun name => "'" +:+ name +:+ "'") names).

(** The number of runs of the module file reader that gave [Valid]. *)
Fixpoint validParses (trace : list Event) : nat :=
  match trace with
  | [] => 0%nat
  | EvLoad _ Valid :: rest => S (validParses rest)
  | _ :: rest => validParses rest
  end.

(** The contract of the module file reader that the loader asserts:
    [ModuleFile::load] never answers [MissingDependency], and an association
    that fails leaves that status and a dependency that is not loaded. *)
Definition wellBehaved (E : Env) : Prop :=
  (∀ inputFile, (ModuleFile_load E inputFile).1 ≠ MissingDependency)
  ∧ (∀ file module table,
       (associateWithModule E file module table).1 = false →
       getStatus (associateWithModule E file module table).2 = MissingDependency
       ∧ missingDependencies (getDependencies (associateWithModule E file module table).2) ≠ []).

(** ** A sample environment *)

Module Sample.

Definition append (path component : string) : string :=
  if String.eqb path EmptyString then component else path +:+ "/" +:+ component.

Fixpoint dirname (path : string) : option string :=
  match path with
  | EmptyString => None
  | String c rest =>
      match dirname rest with
      | Some d => Some (String c d)
      | None => if Ascii.eqb c (Ascii.ascii_of_nat 47) then Some EmptyString else None
      end
  end.

Definition parent (path : string) : string := default EmptyString (dirname path).

Definition file (name contents : string) : FileResult :=
  FileContents {| BufferIdentifier := name; Contents := contents |}.

Definition ENOENT : positive := 2.
Definition EACCES : positive := 13.

Definition disk (filename : string) : FileResult :=
  if String.eqb filename "/src/Near.swiftmodule" then file filename "VALID"
  else if String.eqb filename "Near.swiftmodule" then file filename "VALID"
  else if String.eqb filename "/lib/Near.swiftmodule" then file filename "VALID"
  else if String.eqb filename "Core.swiftmodule" then file filename "VALID"
  else if String.eqb filename "/lib/One.swiftmodule" then file filename "NEEDS Foo"
  else if String.eqb filename "/lib/Two.swiftmodule" then file filename "NEEDS A Core B"
  else if String.eqb filename "/opt/lib/Locked.swiftmodule" then FileError EACCES
  else if String.eqb filename "/lib/Shadow.swiftmodule" then FileError EACCES
  else if String.eqb filename "/opt/lib/Shadow.swiftmodule" then file filename "VALID"
  else if String.eqb filename "Old.swiftmodule" then file filename "TOO NEW"
  else if String.eqb filename "Junk.swiftmodule" then file filename "JUNK"
  else FileError ENOENT.

Definition message (err : error_code) : string :=
  if (err =? 2)%Z then "No such file or directory"
  else if (err =? 13)%Z then "Permission denied"
  else "Unknown error".

Definition sourceBuffer (id : N) : MemoryBuffer :=
  if (id =? 0)%N then {| BufferIdentifier := "/src/main.swift"; Contents := "import Near" |}
  else {| BufferIdentifier := "main.swift"; Contents := "import Near" |}.

Definition bufferOf (loc : SourceLoc) : N :=
  match loc with
  | InvalidLoc => 0%N
  | ValidLoc offset => (offset / 100)%N
  end.

Definition moduleFile (dependencies : list string) : ModuleFile :=
  {| getStatus := Valid;
     getDependencies :=
       map (fun name => {| RawAccessPath := name; isLoaded := false |}) dependencies;
     mf_lookupValue := fun name => [MkDecl 1];
     mf_lookupOperator := fun name fixity => Some (MkDecl 2);
     mf_getImportedModules := fun includePrivate => dependencies;
     mf_lookupVisibleDecls := fun accessPath lookupKind => [MkDecl 1; MkDecl 3];
     mf_lookupClassMembers := fun accessPath => [MkDecl 4];
     mf_lookupClassMember := fun accessPath name => [MkDecl 4];
     mf_getLinkLibraries := ["m"];
     mf_getDisplayDecls := [MkDecl 1; MkDecl 3; MkDecl 4] |}.

Definition parse (buffer : MemoryBuffer) : ModuleStatus * option ModuleFile :=
  if String.eqb (Contents buffer) "VALID" then (Valid, Some (moduleFile []))
  else if String.eqb (Contents buffer) "NEEDS Foo" then (Valid, Some (moduleFile ["Foo"]))
  else if String.eqb (Contents buffer) "NEEDS A Core B"
    then (Valid, Some (moduleFile ["A"; "Core"; "B"]))
  else if String.eqb (Contents buffer) "TOO NEW" then (FormatTooNew, None)
  else (Malformed, None).

(** A dependency is bound when its name is in the module table. *)
Definition bind (table : gmap string ModulePtr) (dependency : Dependency) : Dependency :=
  {| RawAccessPath := RawAccessPath dependency;
     isLoaded := isLoaded dependency || bool_decide (is_Some (table !! RawAccessPath dependency)) |}.

Definition bindAll (file : ModuleFile) (module : ModulePtr) (table : gmap string ModulePtr)
    : bool * ModuleFile :=
  let dependencies := map (bind table) (getDependencies file) in
  let success := forallb isLoaded dependencies in
  (success,
   {| getStatus := if success then Valid else MissingDependency;
      getDependencies := dependencies;
      mf_lookupValue := mf_lookupValue file;
      mf_lookupOperator := mf_lookupOperator file;
      mf_getImportedModules := mf_getImportedModules file;
      mf_lookupVisibleDecls := mf_lookupVisibleDecls file;
      mf_lookupClassMembers := mf_lookupClassMembers file;
      mf_lookupClassMember := mf_lookupClassMember file;
      mf_getLinkLibraries := mf_getLinkLibraries file;
      mf_getDisplayDecls := mf_getDisplayDecls file |}).

Definition env : Env :=
  {| SERIALIZED_MODULE_EXTENSION := "swiftmodule";
     path_append := append;
     parent_path := parent;
     readFile := disk;
     error_message := message;
     findBufferContainingLoc := bufferOf;
     getMemoryBuffer := sourceBuffer;
     ImportSearchPaths := ["/lib"; "/opt/lib"];
     ModuleFile_load := parse;
     associateWithModule := bindAll |}.

Definition registered (name : string) : MemoryBuffer :=
  {| BufferIdentifier := "<registered " +:+ name +:+ ">"; Contents := "VALID" |}.

Definition initial : State :=
  {| Bitstreams := ∅; LoadedModuleFiles := []; LoadedModules := ∅;
     CurrentGeneration := 0; Diags := []; Modules := []; Trace := [] |}.

(** A host that registered buffers for [Near] and [Core]. *)
Definition hosted : State :=
  set_Bitstreams (<["Near" := Some (registered "Near")]>
                   (<["Core" := Some (registered "Core")]> ∅)) initial.

(** A location in [/src/main.swift] and one in [main.swift]. *)
Definition inSrc : SourceLoc := ValidLoc 7.
Definition inCwd : SourceLoc := ValidLoc 107.

(** The state a computation ends in, [initial] if it aborts. *)
Definition stateAfter {A : Type} (m : M A) (s : State) : State :=
  match m s with
  | Done _ s' => s'
  | Abort _ => initial
  end.

(** [Core] has been loaded from the current directory. *)
Definition withCore : State :=
  stateAfter (loadModule env InvalidLoc [("Core", InvalidLoc)]) initial.

(** [One], whose dependency [Foo] is nowhere, has been loaded. *)
Definition withOne : State :=
  stateAfter (loadModule env InvalidLoc [("One", InvalidLoc)]) initial.

End Sample.

(** ** Invariants of the loader's state *)

(** Every entry of the module table points to an allocated handle that
    carries the name it is filed under. *)
Definition tableConsistent (s : State) : Prop :=
  ∀ name module,
    LoadedModules s !! name = Some module →
    ∃ handle, Modules s !! module = Some handle ∧ Name handle = name.

(** A handle's reader reference, when set, is a module file owned by
    [LoadedModuleFiles]. *)
Definition readersRegistered (s : State) : Prop :=
  ∀ module handle file,
    Modules s !! module = Some handle →
    File handle = Some file →
    ∃ generation, (file, generation) ∈ LoadedModuleFiles s.

(** The counter is a value of an [unsigned] and no recorded generation lies
    ahead of it. *)
Definition generationsBounded (s : State) : Prop :=
  (0 ≤ CurrentGeneration s < UINT_MODULUS)%Z
  ∧ Forall (fun modulePair => (modulePair.2 ≤ CurrentGeneration s)%Z) (LoadedModuleFiles s).

(** ** Running the monad *)

Ltac unfold_monad :=
  unfold mbind, M_bind, mret, M_ret, gets, modify, record, diagnose, assert, abort,
    bumpGeneration, getCurrentGeneration, allocateModule, updateModule in *.

Lemma set_Bitstreams_id (s : State) : set_Bitstreams (Bitstreams s) s = s.
Proof. by destruct s. Qed.

Lemma set_Trace_id (s : State) : set_Trace (Trace s ++ []) s = s.
Proof. destruct s; unfold set_Trace; simpl. by rewrite app_nil_r. Qed.

Lemma set_Trace_app (s : State) (t1 t2 : list Event) :
  set_Trace (Trace (set_Trace (Trace s ++ t1) s) ++ t2) (set_Trace (Trace s ++ t1) s)
  = set_Trace (Trace s ++ t1 ++ t2) s.
Proof. unfold set_Trace; simpl. by rewrite app_assoc. Qed.

Lemma getFile_run (E : Env) (filename : string) (s : State) :
  getFile E filename s
  = Done (readError E filename, readBuffer E filename)
         (set_Trace (Trace s ++ [EvGetFile filename]) s).
Proof.
  unfold getFile, readError, readBuffer. unfold_monad.
  by destruct (readFile E filename).
Qed.

Lemma firstReadable_nonempty (E : Env) (filenames : list string) (err err' : error_code) :
  filenames ≠ [] → firstReadable E filenames err = firstReadable E filenames err'.
Proof. destruct filenames as [|f rest]; [done|]. intros _. simpl. by destruct (readFile E f). Qed.

Lemma searchImportPaths_run (E : Env) (moduleFilename : string) (paths : list string) :
  ∀ (err : error_code) (s : State),
    searchImportPaths E paths moduleFilename err s
    = Done (firstReadable E (map (fun Path => path_append E Path moduleFilename) paths) err)
           (set_Trace
              (Trace s ++ map EvGetFile
                 (attempted E (map (fun Path => path_append E Path moduleFilename) paths))) s).
Proof.
  induction paths as [|Path rest IH]; intros err s; simpl.
  - unfold_monad. by rewrite set_Trace_id.
  - unfold mbind, M_bind. rewrite getFile_run. unfold readError, readBuffer.
    destruct (readFile E (path_append E Path moduleFilename)) as [buffer|errno]; simpl.
    + done.
    + rewrite IH. by rewrite set_Trace_app.
Qed.

Lemma findModule_run (E : Env) (moduleID : AccessPathElem) (s : State) :
  findModule E moduleID s
  = Done (firstReadable E (diskCandidates E moduleID) errc_success)
         (set_Trace (Trace s ++ map EvGetFile (attempted E (diskCandidates E moduleID))) s).
Proof.
  unfold findModule, diskCandidates, importerDirectory.
  set (moduleFilename := moduleFilenameOf E moduleID.1).
  set (dir := parent_path E _).
  assert (Hcwd : ∀ s0 : State,
    ('(err, buffer) ← getFile E moduleFilename;
     if (err =? errc_success)%Z then mret (err, buffer)
     else searchImportPaths E (ImportSearchPaths E) moduleFilename err) s0
    = Done (firstReadable E (moduleFilename
              :: map (fun Path => path_append E Path moduleFilename) (ImportSearchPaths E))
              errc_success)
           (set_Trace (Trace s0 ++ map EvGetFile (attempted E (moduleFilename
              :: map (fun Path => path_append E Path moduleFilename) (ImportSearchPaths E))))
              s0)).
  { intros s0. unfold mbind, M_bind. rewrite getFile_run. unfold readError, readBuffer. simpl.
    destruct (readFile E moduleFilename) as [buffer|errno]; simpl; [done|].
    rewrite searchImportPaths_run. by rewrite set_Trace_app. }
  destruct (isValid moduleID.2); simpl.
  - destruct (String.eqb dir EmptyString); simpl.
    + unfold mbind at 1, M_bind at 1. unfold mret at 1, M_ret at 1. apply Hcwd.
    + unfold mbind at 1, M_bind at 1. unfold mbind at 1, M_bind at 1.
      rewrite getFile_run. unfold readError, readBuffer.
      destruct (readFile E (path_append E dir moduleFilename)) as [buffer|errno]; simpl.
      * done.
      * unfold mret at 1, M_ret at 1. rewrite Hcwd. rewrite set_Trace_app.
        f_equal.
  - unfold mbind at 1, M_bind at 1. unfold mret at 1, M_ret at 1. apply Hcwd.
Qed.

Lemma firstReadable_cases (E : Env) (filenames : list string) (err : error_code) :
  filenames ≠ [] →
  (∃ buffer, firstReadable E filenames err = (errc_success, Some buffer))
  ∨ (∃ errno, firstReadable E filenames err = (Zpos errno, None)).
Proof.
  revert err. induction filenames as [|f rest IH]; intros err Hne; [done|]. simpl.
  destruct (readFile E f) as [buffer|errno]; [by left; eexists|].
  destruct rest as [|f' rest']; [by right; eexists|]. by apply IH.
Qed.

Lemma diskCandidates_nonempty (E : Env) (moduleID : AccessPathElem) :
  diskCandidates E moduleID ≠ [].
Proof. unfold diskCandidates. by destruct (_ && _). Qed.

(** What the lookup in the registered bitstreams returns and leaves behind. *)
Lemma takeRegisteredBitstream_run (E : Env) (path : AccessPathTy) (s : State) :
  takeRegisteredBitstream E path s
  = Done (mjoin (Bitstreams s !! bitstreamKey E path)) (afterBitstreamLookup E path s).
Proof.
  unfold takeRegisteredBitstream, afterBitstreamLookup. unfold_monad.
  destruct (size (Bitstreams s) =? 0)%nat eqn:Hsize.
  - apply Nat.eqb_eq, map_size_empty_iff in Hsize. rewrite Hsize, lookup_empty. simpl.
    rewrite set_Trace_id, <- Hsize. by rewrite set_Bitstreams_id.
  - simpl. destruct (Bitstreams s !! bitstreamKey E path) as [owned|]; simpl; [done|].
    by destruct s.
Qed.

Lemma set_Diags_id (s : State) : set_Diags (Diags s) s = s.
Proof. by destruct s. Qed.

(** Lines 91-115 in one equation. *)
Lemma locateInputFile_run (E : Env) (path : AccessPathTy) (moduleID : AccessPathElem)
    (s : State) :
  locateInputFile E path moduleID s
  = match mjoin (Bitstreams s !! bitstreamKey E path) with
    | Some buffer => Done (Some buffer) (afterBitstreamLookup E path s)
    | None =>
        Done (firstReadable E (diskCandidates E moduleID) errc_success).2
             (set_Diags (Diags s ++ searchDiagnostics E moduleID)
                (set_Trace
                   (Trace (afterBitstreamLookup E path s)
                    ++ map EvGetFile (attempted E (diskCandidates E moduleID)))
                   (afterBitstreamLookup E path s)))
    end.
Proof.
  unfold locateInputFile. unfold mbind at 1, M_bind at 1.
  rewrite takeRegisteredBitstream_run.
  destruct (mjoin (Bitstreams s !! bitstreamKey E path)) as [buffer|]; [done|].
  unfold mbind at 1, M_bind at 1. rewrite findModule_run. unfold searchDiagnostics.
  set (s2 := set_Trace _ _).
  assert (HD : Diags s = Diags s2) by done. rewrite HD. clearbody s2.
  destruct (firstReadable_cases E (diskCandidates E moduleID) errc_success
              (diskCandidates_nonempty E moduleID)) as [[buffer ->]|[errno ->]];
    cbn [fst snd].
  - unfold_monad. simpl. by rewrite app_nil_r, set_Diags_id.
  - change (Z.pos errno =? errc_success)%Z with false.
    destruct (Z.pos errno =? errc_no_such_file_or_directory)%Z; unfold_monad; simpl.
    + by rewrite app_nil_r, set_Diags_id.
    + done.
Qed.

(** ** The search order *)

Lemma firstAvailable_split (E : Env) (s : State) (pre post : list Candidate)
    (c : Candidate) (buffer : MemoryBuffer) :
  Forall (fun earlier => available E s earlier = None) pre →
  available E s c = Some buffer →
  firstAvailable E s (pre ++ c :: post) = Some buffer.
Proof.
  intros Hpre Hc. induction Hpre as [|earlier pre Hearlier _ IH]; simpl.
  - by rewrite Hc.
  - by rewrite Hearlier.
Qed.

Lemma firstAvailable_OnDisk (E : Env) (s : State) (filenames : list string)
    (err : error_code) :
  firstAvailable E s (map OnDisk filenames) = (firstReadable E filenames err).2.
Proof.
  revert err. induction filenames as [|f rest IH]; intros err; simpl; [done|].
  unfold readBuffer. destruct (readFile E f); [done|]. apply IH.
Qed.

Lemma firstReadable_twice (E : Env) (f : string) (rest : list string) (err : error_code) :
  firstReadable E (f :: f :: rest) err = firstReadable E (f :: rest) err.
Proof. simpl. by destruct (readFile E f). Qed.

(** The file names the specification lists hold the same first readable file
    as those the code tries: an empty importer directory names the current
    directory again. *)
Lemma diskCandidates_searchOrder (E : Env) (s : State) (moduleID : AccessPathElem) :
  (∀ component, path_append E EmptyString component = component) →
  firstAvailable E s (tail (searchOrder E moduleID))
  = (firstReadable E (diskCandidates E moduleID) errc_success).2.
Proof.
  intros Happend. unfold searchOrder, diskCandidates. cbn [tail].
  set (fn := moduleFilenameOf E moduleID.1).
  set (rest := map (fun Path => path_append E Path fn) (ImportSearchPaths E)).
  assert (Hrest : map (fun Path => OnDisk (path_append E Path fn)) (ImportSearchPaths E)
                  = map OnDisk rest).
  { subst rest. by rewrite map_map. }
  rewrite Hrest. destruct (isValid moduleID.2); cbn [andb].
  - destruct (String.eqb_spec (importerDirectory E moduleID.2) EmptyString) as [->|Hdir]; cbn [negb].
    + rewrite Happend.
      change ([OnDisk fn] ++ OnDisk fn :: map OnDisk rest)
        with (map OnDisk (fn :: fn :: rest)).
      rewrite (firstAvailable_OnDisk E s _ errc_success). by rewrite firstReadable_twice.
    + change ([OnDisk (path_append E (importerDirectory E moduleID.2) fn)]
              ++ OnDisk fn :: map OnDisk rest)
        with (map OnDisk ([path_append E (importerDirectory E moduleID.2) fn] ++ fn :: rest)).
      apply firstAvailable_OnDisk.
  - change ([] ++ OnDisk fn :: map OnDisk rest) with (map OnDisk ([] ++ fn :: rest)).
    apply firstAvailable_OnDisk.
Qed.

Lemma locateInputFile_firstAvailable (E : Env) (s : State) (name : Identifier)
    (loc : SourceLoc) :
  (∀ component, path_append E EmptyString component = component) →
  ∃ s', locateInputFile E [(name, loc)] (name, loc) s
        = Done (firstAvailable E s (searchOrder E (name, loc))) s'.
Proof.
  intros Happend. rewrite locateInputFile_run.
  assert (Hkey : bitstreamKey E [(name, loc)] = name) by apply Happend.
  rewrite Hkey.
  change (firstAvailable E s (searchOrder E (name, loc)))
    with (match mjoin (Bitstreams s !! name) with
          | Some buffer => Some buffer
          | None => firstAvailable E s (tail (searchOrder E (name, loc)))
          end).
  destruct (mjoin (Bitstreams s !! name)) as [buffer|]; [eexists; reflexivity|].
  rewrite (diskCandidates_searchOrder E s (name, loc) Happend). eexists; reflexivity.
Qed.

(** C3. For a single-element module path the buffer comes from the first
    candidate that holds one, in the order: the registered buffers under the
    module's name, the directory of the importing source buffer when the
    location is valid, the current directory, the configured search
    directories in their order.  Whatever the later candidates hold, the
    buffer of the earliest candidate that has one is the one returned. *)
Theorem search_order_first_match (E : Env) (s : State) (name : Identifier)
    (loc : SourceLoc) (pre post : list Candidate) (c : Candidate) (buffer : MemoryBuffer) :
  (∀ component, path_append E EmptyString component = component) →
  searchOrder E (name, loc) = pre ++ c :: post →
  Forall (fun earlier => available E s earlier = None) pre →
  available E s c = Some buffer →
  ∃ s', locateInputFile E [(name, loc)] (name, loc) s = Done (Some buffer) s'.
Proof.
  intros Happend Horder Hpre Hc.
  destruct (locateInputFile_firstAvailable E s name loc Happend) as [s' ->].
  exists s'. rewrite Horder. by rewrite (firstAvailable_split E s pre post c buffer).
Qed.

(** C8. A module path with more than one element gives no handle and leaves
    the whole state as it was: no lookup in the registered bitstreams, no
    file read, no diagnostic. *)
Theorem submodule_path_rejected (E : Env) (importLoc : SourceLoc) (path : AccessPathTy)
    (s : State) :
  (1 < length path)%nat → loadModule E importLoc path s = Done None s.
Proof.
  intros Hlen. unfold loadModule.
  destruct (1 <? length path)%nat eqn:Hlt; [done|].
  apply Nat.ltb_ge in Hlt. lia.
Qed.

(** C10. With a valid import location whose source buffer has an empty
    parent directory, [findModule] tries no file in the importer's directory
    and reports nothing: its first read is the module file name in the
    current directory, followed by the search directories, exactly as for an
    invalid location. *)
Theorem empty_importer_directory_skipped (E : Env) (name : Identifier) (loc : SourceLoc)
    (s : State) :
  isValid loc = true →
  importerDirectory E loc = EmptyString →
  let candidates :=
    moduleFilenameOf E name
    :: map (fun Path => path_append E Path (moduleFilenameOf E name)) (ImportSearchPaths E) in
  findModule E (name, loc) s
  = Done (firstReadable E candidates errc_success)
         (set_Trace (Trace s ++ map EvGetFile (attempted E candidates)) s)
  ∧ findModule E (name, loc) s = findModule E (name, InvalidLoc) s.
Proof.
  intros Hvalid Hdir candidates. rewrite !findModule_run.
  unfold diskCandidates. cbn [fst snd]. rewrite Hvalid, Hdir. done.
Qed.

(** ** Failing searches *)

Lemma firstReadable_all_fail (E : Env) (filenames : list string) :
  Forall (fun f => readError E f ≠ errc_success) filenames →
  ∀ f0 err,
    firstReadable E (f0 :: filenames) err
    = (readError E (List.last (f0 :: filenames) EmptyString), None)
    ∨ readError E f0 = errc_success.
Proof.
  induction 1 as [|f rest Hf _ IH]; intros f0 err.
  - simpl. unfold readError. destruct (readFile E f0); [by right|by left].
  - destruct (IH f (readError E f0)) as [IH'|IH']; [|done].
    change (List.last (f0 :: f :: rest) EmptyString) with (List.last (f :: rest) EmptyString).
    rewrite <- IH'. cbn [firstReadable]. unfold readError.
    destruct (readFile E f0); [by right|by left].
Qed.

Lemma firstReadable_fail (E : Env) (filenames : list string) (err : error_code) :
  filenames ≠ [] →
  Forall (fun f => readError E f ≠ errc_success) filenames →
  firstReadable E filenames err = (readError E (List.last filenames EmptyString), None)
  ∧ attempted E filenames = filenames.
Proof.
  intros Hne Hall. split.
  - destruct filenames as [|f0 rest]; [done|].
    apply Forall_cons in Hall as [Hf0 Hrest].
    by destruct (firstReadable_all_fail E rest Hrest f0 err).
  - clear Hne. induction Hall as [|f rest Hf _ IH]; [done|]. simpl.
    unfold readError in Hf. destruct (readFile E f); [done|]. by rewrite IH.
Qed.

Lemma firstReadable_found (E : Env) (pre post : list string) (f : string)
    (buffer : MemoryBuffer) (err : error_code) :
  Forall (fun f' => readError E f' ≠ errc_success) pre →
  readBuffer E f = Some buffer →
  firstReadable E (pre ++ f :: post) err = (errc_success, Some buffer)
  ∧ attempted E (pre ++ f :: post) = pre ++ [f].
Proof.
  intros Hpre Hf. revert err. induction Hpre as [|f' pre Hf' _ IH]; intros err; simpl.
  - unfold readBuffer in Hf. destruct (readFile E f); by simplify_eq.
  - unfold readError in Hf'. destruct (readFile E f'); [done|].
    destruct (IH (Z.pos errno)) as [-> ->]. done.
Qed.

Lemma loadModule_single (E : Env) (importLoc : SourceLoc) (moduleID : AccessPathElem)
    (s : State) :
  loadModule E importLoc [moduleID] s
  = match locateInputFile E [moduleID] moduleID s with
    | Done None s1 => Done None s1
    | Done (Some inputFile) s1 =>
        match loadInputFile E moduleID inputFile s1 with
        | Done module s2 => Done (Some module) s2
        | Abort why => Abort why
        end
    | Abort why => Abort why
    end.
Proof.
  unfold loadModule. cbn [length Nat.ltb Nat.leb]. unfold mbind at 1, M_bind at 1.
  destruct (locateInputFile E [moduleID] moduleID s) as [[inputFile|] s1|why]; done.
Qed.

(** C6. With no registered buffer for the name: when every file candidate is
    not found, the load gives no handle and no diagnostic; when every
    candidate fails, all of them have been tried and the I/O diagnostic, with
    the system's message, is emitted exactly when the error of the last
    candidate is not file-not-found; and errors of whatever kind on earlier
    candidates do not stop the search, which reads on to the first file
    that can be read. *)
Theorem search_failure_diagnostics (E : Env) (importLoc : SourceLoc) (name : Identifier)
    (loc : SourceLoc) (s : State) :
  mjoin (Bitstreams s !! bitstreamKey E [(name, loc)]) = None →
  let candidates := diskCandidates E (name, loc) in
  let lookedUp := afterBitstreamLookup E [(name, loc)] s in
  (Forall (fun f => readError E f = errc_no_such_file_or_directory) candidates →
   ∃ s', loadModule E importLoc [(name, loc)] s = Done None s' ∧ Diags s' = Diags s)
  ∧ (Forall (fun f => readError E f ≠ errc_success) candidates →
     let err := readError E (List.last candidates EmptyString) in
     ∃ s', loadModule E importLoc [(name, loc)] s = Done None s'
       ∧ Trace s' = Trace lookedUp ++ map EvGetFile candidates
       ∧ Diags s' = Diags s ++
           if (err =? errc_no_such_file_or_directory)%Z then []
           else [(loc, sema_opening_import name (error_message E err))])
  ∧ (∀ pre f post buffer,
       candidates = pre ++ f :: post →
       Forall (fun f' => readError E f' ≠ errc_success) pre →
       readBuffer E f = Some buffer →
       ∃ s', locateInputFile E [(name, loc)] (name, loc) s = Done (Some buffer) s'
         ∧ Trace s' = Trace lookedUp ++ map EvGetFile (pre ++ [f])
         ∧ Diags s' = Diags s).
Proof.
  intros Hmem candidates lookedUp.
  assert (Hfail : Forall (fun f => readError E f ≠ errc_success) candidates →
    ∃ s', loadModule E importLoc [(name, loc)] s = Done None s'
      ∧ Trace s' = Trace lookedUp ++ map EvGetFile candidates
      ∧ Diags s' = Diags s ++
          if (readError E (List.last candidates EmptyString) =? errc_no_such_file_or_directory)%Z
          then []
          else [(loc, sema_opening_import name
                        (error_message E (readError E (List.last candidates EmptyString))))]).
  { intros Hall. rewrite loadModule_single, locateInputFile_run, Hmem.
    unfold searchDiagnostics.
    destruct (firstReadable_fail E candidates errc_success
                (diskCandidates_nonempty E (name, loc)) Hall) as [Hres Hatt].
    fold candidates. rewrite Hres, Hatt. cbn [fst snd].
    eexists. split; [reflexivity|]. split; [done|]. cbn [Diags set_Diags]. f_equal.
    assert (Hlast : In (List.last candidates EmptyString) candidates).
    { destruct (exists_last (diskCandidates_nonempty E (name, loc))) as (l & x & Hl).
      fold candidates in Hl. rewrite Hl, last_last. apply in_or_app. right. by left. }
    rewrite Forall_forall in Hall.
    apply list_elem_of_In, Hall, Z.eqb_neq in Hlast. by rewrite Hlast. }
  split; [|split; [exact Hfail|]].
  - intros Hall.
    assert (Hall' : Forall (fun f => readError E f ≠ errc_success) candidates).
    { eapply Forall_impl; [exact Hall|]. by intros f ->. }
    destruct (Hfail Hall') as (s' & Hrun & _ & HD). exists s'. split; [done|].
    rewrite HD.
    assert (Hlast : In (List.last candidates EmptyString) candidates).
    { destruct (exists_last (diskCandidates_nonempty E (name, loc))) as (l & x & Hl).
      fold candidates in Hl. rewrite Hl, last_last. apply in_or_app. right. by left. }
    rewrite Forall_forall in Hall. apply list_elem_of_In, Hall in Hlast.
    rewrite Hlast. simpl. by rewrite app_nil_r.
  - intros pre f post buffer Hsplit Hpre Hf.
    rewrite locateInputFile_run, Hmem. unfold searchDiagnostics. fold candidates.
    destruct (firstReadable_found E pre post f buffer errc_success Hpre Hf) as [Hres Hatt].
    rewrite Hsplit, Hres, Hatt. cbn [fst snd].
    eexists. split; [reflexivity|]. split; [done|]. simpl. by rewrite app_nil_r.
Qed.

(** ** Loading the input file *)

Lemma alter_last {A : Type} (f : A → A) (l : list A) (x : A) :
  alter f (length l) (l ++ [x]) = l ++ [f x].
Proof.
  replace (length l) with (length l + 0)%nat by lia. by rewrite alter_app_r.
Qed.

Ltac destruct_run H :=
  repeat match type of H with
         | context [ModuleFile_load ?E ?b] => destruct (ModuleFile_load E b) as [[] []]
         | context [associateWithModule ?E ?f ?m ?t] =>
             let Ha := fresh "Hassoc" in
             destruct (associateWithModule E f m t) as [[] ?] eqn:Ha
         | context [isMissingDependency ?st] => destruct (isMissingDependency st)
         | context [missingDependencies ?d] => destruct (missingDependencies d) as [|? [|? ?]]
         end.

(** What a completed [loadInputFile] has changed. *)
Lemma loadInputFile_inv (E : Env) (moduleID : AccessPathElem) (inputFile : MemoryBuffer)
    (s s' : State) (module : ModulePtr) :
  loadInputFile E moduleID inputFile s = Done module s' →
  module = length (Modules s)
  ∧ Bitstreams s' = Bitstreams s
  ∧ Trace s' = Trace s ++ [EvLoad (BufferIdentifier inputFile) (ModuleFile_load E inputFile).1]
  ∧ CurrentGeneration s'
    = match (ModuleFile_load E inputFile).1 with
      | Valid => nextGeneration (CurrentGeneration s)
      | _ => CurrentGeneration s
      end
  ∧ LoadedModules s' = <[moduleID.1 := module]> (LoadedModules s)
  ∧ ∃ handle, Modules s' = Modules s ++ [handle]
      ∧ Name handle = moduleID.1
      ∧ DebugModuleName handle = BufferIdentifier inputFile.
Proof.
  unfold loadInputFile, associate, diagnoseMissing. intros H.
  destruct_run H; unfold_monad; cbn in H; destruct_run H; cbn in H; simplify_eq; cbn;
    rewrite ?alter_last, ?list_alter_alter_eq, ?alter_last;
    repeat split; eauto.
Qed.

Lemma locateInputFile_frame (E : Env) (path : AccessPathTy) (moduleID : AccessPathElem)
    (s s1 : State) (located : option MemoryBuffer) :
  locateInputFile E path moduleID s = Done located s1 →
  LoadedModuleFiles s1 = LoadedModuleFiles s
  ∧ LoadedModules s1 = LoadedModules s
  ∧ CurrentGeneration s1 = CurrentGeneration s
  ∧ Modules s1 = Modules s
  ∧ (is_Some located → Diags s1 = Diags s)
  ∧ ∃ t, Trace s1 = Trace s ++ t ∧ validParses t = 0%nat.
Proof.
  rewrite locateInputFile_run. intros H.
  assert (Hget : ∀ l, validParses (map EvGetFile l) = 0%nat) by (by induction l).
  destruct (mjoin (Bitstreams s !! bitstreamKey E path)) as [buffer|];
    simplify_eq; cbn; repeat split; try done.
  - eexists. split; [done|]. by destruct (size (Bitstreams s) =? 0)%nat.
  - intros [buffer Hbuf]. unfold searchDiagnostics.
    destruct (firstReadable_cases E (diskCandidates E moduleID) errc_success
                (diskCandidates_nonempty E moduleID)) as [[b Hb]|[errno Hb]];
      rewrite Hb in *; [|done]. cbn. by rewrite app_nil_r.
  - eexists. split; [by rewrite <- app_assoc|].
    destruct (size (Bitstreams s) =? 0)%nat; cbn; apply Hget.
Qed.


(** ** The registered bitstreams *)


(** ** The module table *)

(** What a completed load of a single-element path has recorded, by its
    result: a returned handle is newly allocated and filed in the module
    table under the module's name; with no handle the table and the handles
    are as they were. *)
Theorem handle_registered_under_name (E : Env) (importLoc : SourceLoc) (name : Identifier)
    (loc : SourceLoc) (s s' : State) (result : option ModulePtr) :
  loadModule E importLoc [(name, loc)] s = Done result s' →
  match result with
  | Some module =>
      module = length (Modules s)
      ∧ LoadedModules s' = <[name := module]> (LoadedModules s)
      ∧ ∃ handle, Modules s' = Modules s ++ [handle] ∧ Name handle = name
  | None => LoadedModules s' = LoadedModules s ∧ Modules s' = Modules s
  end.
Proof.
  rewrite loadModule_single. intros Hrun.
  destruct (locateInputFile E [(name, loc)] (name, loc) s) as [located s1|why] eqn:Hloc;
    [|done].
  apply locateInputFile_frame in Hloc as (_ & HLM & _ & HM & _).
  destruct located as [inputFile|]; [|by simplify_eq].
  destruct (loadInputFile E (name, loc) inputFile s1) as [module s2|why] eqn:Hload; [|done].
  apply loadInputFile_inv in Hload as (Hm & _ & _ & _ & HLM2 & handle & HM2 & Hname & _).
  simplify_eq. rewrite HLM2, HM2, HLM, HM. eauto.
Qed.

(** ** The generation counter *)

Lemma validParses_app (t1 t2 : list Event) :
  validParses (t1 ++ t2) = (validParses t1 + validParses t2)%nat.
Proof.
  induction t1 as [|[| |b []| |] t1 IH]; cbn; rewrite ?IH; done.
Qed.

Lemma loadModule_generation (E : Env) (importLoc : SourceLoc) (path : AccessPathTy)
    (s s' : State) (result : option ModulePtr) :
  loadModule E importLoc path s = Done result s' →
  ∃ t, Trace s' = Trace s ++ t
       ∧ CurrentGeneration s'
         = Nat.iter (validParses t) nextGeneration (CurrentGeneration s).
Proof.
  unfold loadModule. destruct (1 <? length path)%nat.
  { intros H; unfold mret, M_ret in H; simplify_eq.
    exists []. split; [by rewrite app_nil_r|reflexivity]. }
  destruct path as [|moduleID rest]; [done|].
  unfold mbind at 1, M_bind at 1.
  destruct (locateInputFile E (moduleID :: rest) moduleID s) as [located s1|why] eqn:Hloc;
    [|done].
  apply locateInputFile_frame in Hloc as (_ & _ & HG & _ & _ & t1 & HT & Ht1).
  destruct located as [inputFile|].
  - unfold mbind, M_bind.
    destruct (loadInputFile E moduleID inputFile s1) as [module s2|why] eqn:Hload; [|done].
    apply loadInputFile_inv in Hload as (_ & _ & HT2 & HG2 & _).
    intros H; unfold mret, M_ret in H; simplify_eq.
    eexists. split; [by rewrite HT2, HT, <- app_assoc|].
    rewrite validParses_app, Ht1, HG2, HG. cbn.
    by destruct ((ModuleFile_load E inputFile).1).
  - intros H; unfold mret, M_ret in H; simplify_eq. exists t1. by rewrite Ht1, HG.
Qed.

Lemma loadInputFile_completes (E : Env) (moduleID : AccessPathElem)
    (inputFile : MemoryBuffer) (s : State) :
  wellBehaved E → ∃ module s', loadInputFile E moduleID inputFile s = Done module s'.
Proof.
  intros [Hload Hassoc]. unfold loadInputFile, associate, diagnoseMissing.
  specialize (Hload inputFile).
  destruct (ModuleFile_load E inputFile) as [[] [file|]]; cbn in Hload; try done;
    unfold_monad; cbn; eauto.
  specialize (Hassoc file (length (Modules s))
                (<[moduleID.1 := length (Modules s)]> (LoadedModules s))).
  destruct (associateWithModule E file (length (Modules s))
              (<[moduleID.1 := length (Modules s)]> (LoadedModules s)))
    as [[] file']; cbn in *; eauto.
  destruct Hassoc as [-> Hmissing]; [done|]. cbn.
  destruct (missingDependencies (getDependencies file')) as [|d [|d' l]]; cbn; eauto.
  done.
Qed.

Lemma loadModule_completes (E : Env) (importLoc : SourceLoc) (path : AccessPathTy)
    (s : State) :
  wellBehaved E → path ≠ [] → ∃ result s', loadModule E importLoc path s = Done result s'.
Proof.
  intros HE Hpath. unfold loadModule. destruct (1 <? length path)%nat; [by eexists _, _|].
  destruct path as [|moduleID rest]; [done|].
  unfold mbind at 1, M_bind at 1. rewrite locateInputFile_run.
  destruct (mjoin _) as [buffer|].
  - unfold mbind, M_bind.
    destruct (loadInputFile_completes E moduleID buffer
                (afterBitstreamLookup E (moduleID :: rest) s) HE) as (m & s' & ->).
    by eexists _, _.
  - destruct (firstReadable E (diskCandidates E moduleID) errc_success).2 as [buffer|].
    + unfold mbind, M_bind.
      match goal with
      | |- context [loadInputFile E moduleID buffer ?s1] =>
          destruct (loadInputFile_completes E moduleID buffer s1 HE) as (m & s' & ->)
      end.
      by eexists _, _.
    + by eexists _, _.
Qed.

(** C1, as the code has it.  The generation counter is bumped exactly once
    by every load whose parse status is Valid, before the dependencies are
    associated and whether or not that association then succeeds; a load that
    is refused, finds no buffer, or parses as FormatTooNew or Malformed
    leaves the counter alone.  So over any sequence of load requests the
    counter has been bumped as many times as the reader answered Valid; and
    the sequence runs to its end whenever the reader keeps its contract and
    no request has an empty path. *)
Theorem generation_counts_valid_parses (E : Env)
    (requests : list (SourceLoc * AccessPathTy)) (s : State) :
  (∀ results s',
     loadModules E requests s = Done results s' →
     ∃ t, Trace s' = Trace s ++ t
          ∧ CurrentGeneration s'
            = Nat.iter (validParses t) nextGeneration (CurrentGeneration s))
  ∧ (wellBehaved E → Forall (fun request => request.2 ≠ []) requests →
     ∃ results s', loadModules E requests s = Done results s').
Proof.
  revert s. induction requests as [|[importLoc path] rest IH]; intros s.
  - split.
    + intros results s' H. cbn in H. unfold mret, M_ret in H. simplify_eq.
      exists []. split; [by rewrite app_nil_r|reflexivity].
    + intros _ _. by eexists _, _.
  - split.
    + intros results s' H. cbn [loadModules] in H. unfold mbind at 1, M_bind at 1 in H.
      destruct (loadModule E importLoc path s) as [module s1|why] eqn:Hfirst; [|done].
      unfold mbind, M_bind, mret, M_ret in H.
      destruct (loadModules E rest s1) as [modules s2|why] eqn:Hrest; [|done].
      simplify_eq.
      apply loadModule_generation in Hfirst as (t1 & HT1 & HG1).
      destruct (IH s1) as [IH1 _]. destruct (IH1 _ _ Hrest) as (t2 & HT2 & HG2).
      exists (t1 ++ t2). split; [by rewrite HT2, HT1, <- app_assoc|].
      rewrite HG2, HG1, validParses_app, Nat.add_comm. by rewrite Nat.iter_add.
    + intros HE Hpaths. apply Forall_cons in Hpaths as [Hpath Hpaths].
      cbn [loadModules]. unfold mbind at 1, M_bind at 1.
      destruct (loadModule_completes E importLoc path s HE Hpath) as (module & s1 & ->).
      unfold mbind, M_bind, mret, M_ret.
      destruct (IH s1) as [_ IH2]. destruct (IH2 HE Hpaths) as (modules & s2 & ->).
      by eexists _, _.
Qed.

(** ** Missing dependencies *)

Lemma string_append_cons (ch : Ascii.ascii) (a b : string) :
  String ch a +:+ b = String ch (a +:+ b).
Proof. reflexivity. Qed.

Lemma string_append_nil (a : string) : EmptyString +:+ a = a.
Proof. reflexivity. Qed.

Lemma string_append_assoc (a b c : string) : (a +:+ b) +:+ c = a +:+ b +:+ c.
Proof.
  induction a as [|ch a IH]; [done|]. rewrite !string_append_cons. by rewrite IH.
Qed.

Ltac normalise_append :=
  repeat (rewrite ?string_append_assoc, ?string_append_cons, ?string_append_nil).

Lemma interleave_rest_quoted (rest : list Dependency) :
  ∀ (acc : string) (x : Dependency),
    interleave_rest rest RawAccessPath "', '" (acc +:+ "'" +:+ RawAccessPath x) +:+ "'"
    = acc +:+ quotedList (map RawAccessPath (x :: rest)).
Proof.
  induction rest as [|y rest IH]; intros acc x.
  - unfold quotedList. cbn [interleave_rest map String.concat]. by normalise_append.
  - cbn [interleave_rest].
    replace ((acc +:+ "'" +:+ RawAccessPath x) +:+ "', '" +:+ RawAccessPath y)
      with ((acc +:+ "'" +:+ RawAccessPath x +:+ "', ") +:+ "'" +:+ RawAccessPath y)
      by (by normalise_append).
    rewrite IH. unfold quotedList. cbn [map String.concat]. by normalise_append.
Qed.

Lemma interleave_quotedList (missing : list Dependency) :
  missing ≠ [] →
  interleave missing RawAccessPath "', '" "'" +:+ "'"
  = quotedList (map RawAccessPath missing).
Proof.
  destruct missing as [|x rest]; [done|]. intros _.
  rewrite <- (string_append_nil (quotedList _)).
  apply (interleave_rest_quoted rest EmptyString x).
Qed.

(** C5. When the association fails after a Valid parse, the load still
    returns the handle and emits one diagnostic at the import location for
    the dependencies that are not loaded: the raw access path alone when
    there is exactly one, and otherwise all of them, each quoted, separated by
    commas, in the order of the dependency list.  The handle's reader
    reference is left null and no module file is recorded as loaded. *)
Theorem missing_dependencies_diagnosed (E : Env) (importLoc : SourceLoc)
    (name : Identifier) (loc : SourceLoc) (s s1 : State) (inputFile : MemoryBuffer)
    (file file' : ModuleFile) :
  locateInputFile E [(name, loc)] (name, loc) s = Done (Some inputFile) s1 →
  ModuleFile_load E inputFile = (Valid, Some file) →
  let module := length (Modules s) in
  associateWithModule E file module (<[name := module]> (LoadedModules s)) = (false, file') →
  getStatus file' = MissingDependency →
  let missing := missingDependencies (getDependencies file') in
  missing ≠ [] →
  ∃ s', loadModule E importLoc [(name, loc)] s = Done (Some module) s'
    ∧ (∀ only, missing = [only] →
         Diags s' = Diags s
           ++ [(loc, serialization_missing_single_dependency (RawAccessPath only))])
    ∧ ((1 < length missing)%nat →
         Diags s' = Diags s
           ++ [(loc, serialization_missing_dependencies
                       (quotedList (map RawAccessPath missing)))])
    ∧ (∃ handle, Modules s' !! module = Some handle ∧ File handle = None)
    ∧ LoadedModuleFiles s' = LoadedModuleFiles s.
Proof.
  intros Hloc Hload module Hassoc Hstatus missing Hmissing.
  rewrite loadModule_single, Hloc.
  apply locateInputFile_frame in Hloc as (HLMF & HLM & _ & HM & HD & _).
  specialize (HD (mk_is_Some _ _ eq_refl)).
  subst module. rewrite <- HM, <- HLM in *. rewrite <- HD, <- HLMF.
  unfold loadInputFile, associate, diagnoseMissing. rewrite Hload.
  unfold_monad. cbn. rewrite Hassoc. cbn. rewrite Hstatus. cbn. fold missing.
  pose proof (interleave_quotedList missing Hmissing) as Hquoted.
  destruct missing as [|d [|d' rest]] eqn:Hm; [done| |]; cbn beta iota.
  - eexists. split; [reflexivity|].
    cbn [Diags Modules LoadedModuleFiles set_Modules set_Diags set_LoadedModules
         set_CurrentGeneration set_Trace].
    split; [by intros only [= <-]|]. split; [cbn; lia|]. split; [|done].
    rewrite !alter_last. eexists. by rewrite list_lookup_middle.
  - eexists. split; [reflexivity|].
    cbn [Diags Modules LoadedModuleFiles set_Modules set_Diags set_LoadedModules
         set_CurrentGeneration set_Trace].
    split; [by intros only [=]|]. split; [by intros _; rewrite Hquoted|].
    split; [|done].
    rewrite !alter_last. eexists. by rewrite list_lookup_middle.
Qed.

(** ** The queries *)

(** C7. On a handle whose reader reference is null every query returns at
    once with its empty result: the output vector, the consumer and the
    callback are handed back as they were, the operator lookup answers null,
    and the state is untouched.  ([lookupValue] is called, as it asserts,
    with an access path of at most one element.) *)
Theorem queries_on_unset_reader (s : State) (module : ModulePtr)
    (handle : SerializedModule) :
  Modules s !! module = Some handle →
  File handle = None →
  (∀ accessPath name lookupKind results,
     (length accessPath ≤ 1)%nat →
     lookupValue module accessPath name lookupKind results s = Done results s)
  ∧ (∀ name fixity, lookupOperator module name fixity s = Done None s)
  ∧ (∀ imports includePrivate,
       getImportedModules module imports includePrivate s = Done imports s)
  ∧ (∀ accessPath consumer lookupKind,
       lookupVisibleDecls module accessPath consumer lookupKind s = Done consumer s)
  ∧ (∀ accessPath consumer,
       lookupClassMembers module accessPath consumer s = Done consumer s)
  ∧ (∀ accessPath name decls,
       lookupClassMember module accessPath name decls s = Done decls s)
  ∧ (∀ callback, getLinkLibraries module callback s = Done callback s)
  ∧ (∀ results, getDisplayDecls module results s = Done results s).
Proof.
  intros Hmodule Hfile.
  assert (Hderef : derefModule module s = Done handle s).
  { unfold derefModule. by rewrite Hmodule. }
  repeat split; intros;
    unfold lookupValue, lookupOperator, getImportedModules, lookupVisibleDecls,
      lookupClassMembers, lookupClassMember, getLinkLibraries, getDisplayDecls;
    unfold mbind, M_bind; rewrite ?Hderef, ?Hfile; try done.
  destruct accessPath as [|front [|second rest]]; cbn in *; [| |lia].
  - by rewrite Hderef, Hfile.
  - destruct (negb (front.1 =? name)%string); [done|]. by rewrite Hderef, Hfile.
Qed.

Lemma forEachLoadedSince_run (previousGeneration : Generation) (call : ModuleFile → Event)
    (entries : list (ModuleFile * Generation)) :
  ∀ s, forEachLoadedSince entries previousGeneration call s
       = Done tt (set_Trace
                    (Trace s ++ map (fun modulePair => call modulePair.1)
                       (List.filter (fun modulePair => (previousGeneration <? modulePair.2)%Z)
                          entries)) s).
Proof.
  induction entries as [|[file generation] rest IH]; intros s; cbn.
  - unfold mret, M_ret. by rewrite app_nil_r, <- (app_nil_r (Trace s)), set_Trace_id.
  - unfold mbind at 1, M_bind at 1. rewrite Z.ltb_antisym.
    destruct (generation <=? previousGeneration)%Z; cbn.
    + unfold mret, M_ret. apply IH.
    + unfold record. rewrite IH. by rewrite set_Trace_app.
Qed.

(** C9. [loadExtensions] and [loadDeclsConformingTo] hand the request to the
    module file of every entry of [LoadedModuleFiles] whose recorded
    generation is strictly greater than [previousGeneration], in the order
    of the list, and to no other entry. *)
Theorem load_since_generation (nominal : NominalTypeDecl) (kind : KnownProtocolKind)
    (previousGeneration : Generation) (s : State) :
  let qualifying :=
    List.filter (fun modulePair => (previousGeneration <? modulePair.2)%Z)
      (LoadedModuleFiles s) in
  loadExtensions nominal previousGeneration s
  = Done tt (set_Trace
               (Trace s ++ map (fun modulePair => EvLoadExtensions modulePair.1 nominal)
                             qualifying) s)
  ∧ loadDeclsConformingTo kind previousGeneration s
    = Done tt (set_Trace
                 (Trace s ++ map (fun modulePair => EvLoadDeclsConformingTo modulePair.1 kind)
                               qualifying) s).
Proof.
  intros qualifying. unfold loadExtensions, loadDeclsConformingTo, gets.
  unfold mbind, M_bind. by rewrite !forEachLoadedSince_run.
Qed.

(** ** Worked cases on the sample environment *)

Lemma Sample_append_empty (component : string) : Sample.append EmptyString component = component.
Proof. reflexivity. Qed.

Lemma search_order_first_match_witness :
  (∃ s', locateInputFile Sample.env [("Near", Sample.inSrc)] ("Near", Sample.inSrc)
           Sample.hosted
         = Done (Some (Sample.registered "Near")) s')
  ∧ (∃ s', locateInputFile Sample.env [("Near", Sample.inSrc)] ("Near", Sample.inSrc)
             Sample.initial
           = Done (Some {| BufferIdentifier := "/src/Near.swiftmodule";
                           Contents := "VALID" |}) s')
  ∧ (∃ s', locateInputFile Sample.env [("Near", InvalidLoc)] ("Near", InvalidLoc)
             Sample.initial
           = Done (Some {| BufferIdentifier := "Near.swiftmodule";
                           Contents := "VALID" |}) s').
Proof.
  split; [|split].
  - apply (search_order_first_match Sample.env Sample.hosted "Near" Sample.inSrc
             [] (tail (searchOrder Sample.env ("Near", Sample.inSrc))) (InMemory "Near")).
    + exact Sample_append_empty.
    + reflexivity.
    + constructor.
    + vm_compute. reflexivity.
  - apply (search_order_first_match Sample.env Sample.initial "Near" Sample.inSrc
             [InMemory "Near"]
             [OnDisk "Near.swiftmodule"; OnDisk "/lib/Near.swiftmodule";
              OnDisk "/opt/lib/Near.swiftmodule"]
             (OnDisk "/src/Near.swiftmodule")).
    + exact Sample_append_empty.
    + reflexivity.
    + repeat constructor.
    + reflexivity.
  - apply (search_order_first_match Sample.env Sample.initial "Near" InvalidLoc
             [InMemory "Near"]
             [OnDisk "/lib/Near.swiftmodule"; OnDisk "/opt/lib/Near.swiftmodule"]
             (OnDisk "Near.swiftmodule")).
    + exact Sample_append_empty.
    + reflexivity.
    + repeat constructor.
    + reflexivity.
Defined.

Lemma submodule_path_rejected_witness :
  loadModule Sample.env InvalidLoc [("Near", Sample.inSrc); ("Sub", Sample.inSrc)]
    Sample.hosted
  = Done None Sample.hosted.
Proof. apply submodule_path_rejected. cbn. lia. Defined.

Lemma empty_importer_directory_skipped_witness :
  findModule Sample.env ("Near", Sample.inCwd) Sample.initial
  = findModule Sample.env ("Near", InvalidLoc) Sample.initial.
Proof.
  apply (empty_importer_directory_skipped Sample.env "Near" Sample.inCwd Sample.initial);
    reflexivity.
Defined.

Lemma search_failure_diagnostics_witness :
  (∃ s', loadModule Sample.env InvalidLoc [("Nowhere", Sample.inSrc)] Sample.initial
         = Done None s'
         ∧ Diags s' = [])
  ∧ (∃ s', loadModule Sample.env InvalidLoc [("Locked", Sample.inSrc)] Sample.initial
           = Done None s'
           ∧ Diags s' = [(Sample.inSrc, sema_opening_import "Locked" "Permission denied")])
  ∧ (∃ s', locateInputFile Sample.env [("Shadow", Sample.inSrc)] ("Shadow", Sample.inSrc)
             Sample.initial
           = Done (Some {| BufferIdentifier := "/opt/lib/Shadow.swiftmodule";
                           Contents := "VALID" |}) s'
           ∧ Diags s' = []).
Proof.
  split; [|split].
  - destruct (search_failure_diagnostics Sample.env InvalidLoc "Nowhere" Sample.inSrc
                Sample.initial eq_refl) as (Hsilent & _ & _).
    apply Hsilent. vm_compute. repeat constructor.
  - destruct (search_failure_diagnostics Sample.env InvalidLoc "Locked" Sample.inSrc
                Sample.initial eq_refl) as (_ & Hlast & _).
    destruct Hlast as (s' & Hrun & _ & HD).
    + vm_compute. repeat (constructor; [discriminate|]). constructor.
    + exists s'. split; [exact Hrun|]. rewrite HD. reflexivity.
  - destruct (search_failure_diagnostics Sample.env InvalidLoc "Shadow" Sample.inSrc
                Sample.initial eq_refl) as (_ & _ & Hfound).
    destruct (Hfound ["/src/Shadow.swiftmodule"; "Shadow.swiftmodule";
                      "/lib/Shadow.swiftmodule"]
                "/opt/lib/Shadow.swiftmodule" []
                {| BufferIdentifier := "/opt/lib/Shadow.swiftmodule"; Contents := "VALID" |})
      as (s' & Hrun & _ & HD).
    + reflexivity.
    + vm_compute. repeat (constructor; [discriminate|]). constructor.
    + reflexivity.
    + exists s'. split; [exact Hrun|exact HD].
Defined.




Lemma handle_registered_under_name_witness :
  LoadedModules Sample.withOne = <["One" := 0%nat]> (LoadedModules Sample.initial)
  ∧ ∃ handle, Modules Sample.withOne = Modules Sample.initial ++ [handle]
              ∧ Name handle = "One".
Proof.
  refine (proj2 (handle_registered_under_name Sample.env InvalidLoc "One" InvalidLoc
                   Sample.initial Sample.withOne (Some 0%nat) _)).
  vm_compute. reflexivity.
Defined.

(** C1, as stated, fails: loading [One], whose parse is Valid and whose
    dependency [Foo] cannot be associated, bumps the counter although no
    module became usable. *)
Lemma generation_bumped_without_usable_module :
  ∃ s', loadModule Sample.env InvalidLoc [("One", InvalidLoc)] Sample.initial
        = Done (Some 0%nat) s'
        ∧ CurrentGeneration Sample.initial = 0
        ∧ CurrentGeneration s' = 1
        ∧ LoadedModuleFiles s' = LoadedModuleFiles Sample.initial
        ∧ (File <$> Modules s' !! 0%nat) = Some None
        ∧ Diags s' = [(InvalidLoc, serialization_missing_single_dependency "Foo")].
Proof.
  eexists. split; [vm_compute; reflexivity|]. repeat split; reflexivity.
Qed.

Lemma forallb_isLoaded_false (dependencies : list Dependency) :
  forallb isLoaded dependencies = false → missingDependencies dependencies ≠ [].
Proof.
  induction dependencies as [|d rest IH]; cbn; [done|].
  destruct (isLoaded d); cbn; [exact IH|done].
Qed.

Lemma Sample_wellBehaved : wellBehaved Sample.env.
Proof.
  split.
  - intros inputFile. cbn. unfold Sample.parse.
    repeat match goal with |- context [if ?b then _ else _] => destruct b end; done.
  - intros file module table. cbn. intros Hfail. rewrite Hfail.
    split; [done|]. by apply forallb_isLoaded_false.
Qed.

Lemma generation_counts_valid_parses_witness :
  let requests :=
    [(InvalidLoc, [("Core", InvalidLoc)]);
     (InvalidLoc, [("Two", Sample.inSrc)]);
     (InvalidLoc, [("Old", InvalidLoc)]);
     (InvalidLoc, [("Nowhere", InvalidLoc)]);
     (InvalidLoc, [("Near", InvalidLoc); ("Sub", InvalidLoc)])] in
  ∃ results s',
    loadModules Sample.env requests Sample.initial = Done results s'
    ∧ results = [Some 0%nat; Some 1%nat; Some 2%nat; None; None]
    ∧ validParses (Trace s') = 2%nat
    ∧ CurrentGeneration s' = 2
    ∧ length (LoadedModuleFiles s') = 1%nat.
Proof.
  intros requests.
  destruct (generation_counts_valid_parses Sample.env requests Sample.initial)
    as [Hcount Hruns].
  destruct Hruns as (results & s' & Hrun).
  - exact Sample_wellBehaved.
  - repeat constructor; discriminate.
  - exists results, s'. split; [exact Hrun|].
    destruct (Hcount results s' Hrun) as (t & HT & HG).
    vm_compute in Hrun. injection Hrun as <- <-. cbn in HT. subst t.
    split; [reflexivity|]. split; [reflexivity|]. split; [exact HG|reflexivity].
Defined.

Lemma missing_dependencies_diagnosed_witness :
  (∃ s', loadModule Sample.env InvalidLoc [("One", Sample.inCwd)] Sample.initial
         = Done (Some 0%nat) s'
         ∧ Diags s' = [(Sample.inCwd, serialization_missing_single_dependency "Foo")]
         ∧ (File <$> Modules s' !! 0%nat) = Some None)
  ∧ (∃ s', loadModule Sample.env InvalidLoc [("Two", Sample.inCwd)] Sample.withCore
           = Done (Some 1%nat) s'
           ∧ Diags s' = [(Sample.inCwd, serialization_missing_dependencies "'A', 'B'")]
           ∧ (File <$> Modules s' !! 1%nat) = Some None).
Proof.
  split.
  - edestruct (missing_dependencies_diagnosed Sample.env InvalidLoc "One" Sample.inCwd
                 Sample.initial)
      as (s' & Hrun & Hone & _ & (handle & Hhandle & Hfile) & _).
    + vm_compute. reflexivity.
    + vm_compute. reflexivity.
    + vm_compute. reflexivity.
    + reflexivity.
    + discriminate.
    + exists s'. split; [exact Hrun|]. split.
      * rewrite (Hone _ eq_refl). reflexivity.
      * change (Modules s' !! 0%nat = Some handle) in Hhandle.
        rewrite Hhandle. cbn. by rewrite Hfile.
  - edestruct (missing_dependencies_diagnosed Sample.env InvalidLoc "Two" Sample.inCwd
                 Sample.withCore)
      as (s' & Hrun & _ & Hmany & (handle & Hhandle & Hfile) & _).
    + vm_compute. reflexivity.
    + vm_compute. reflexivity.
    + vm_compute. reflexivity.
    + reflexivity.
    + discriminate.
    + exists s'. split; [exact Hrun|]. split.
      * rewrite Hmany; [reflexivity|cbn; lia].
      * change (Modules s' !! 1%nat = Some handle) in Hhandle.
        rewrite Hhandle. cbn. by rewrite Hfile.
Defined.

Lemma queries_on_unset_reader_witness :
  lookupValue 0%nat [("x", InvalidLoc)] "x" UnqualifiedLookup [MkDecl 9] Sample.withOne
  = Done [MkDecl 9] Sample.withOne
  ∧ lookupOperator 0%nat "+" InfixOperator Sample.withOne = Done None Sample.withOne
  ∧ getDisplayDecls 0%nat [] Sample.withOne = Done [] Sample.withOne.
Proof.
  edestruct (queries_on_unset_reader Sample.withOne 0%nat)
    as (Hvalue & Hoperator & _ & _ & _ & _ & _ & Hdisplay).
  - vm_compute. reflexivity.
  - reflexivity.
  - split; [apply Hvalue; cbn; lia|]. split; [apply Hoperator|apply Hdisplay].
Defined.

(** ** What one load leaves behind *)

(** The handle, the diagnostics and the loaded module files after a
    completed [loadInputFile], by what the reader and the association
    answered. *)
Lemma loadInputFile_outcome (E : Env) (moduleID : AccessPathElem) (inputFile : MemoryBuffer)
    (s s' : State) (module : ModulePtr) :
  loadInputFile E moduleID inputFile s = Done module s' →
  let handle file :=
    {| Name := moduleID.1; DebugModuleName := BufferIdentifier inputFile; File := file |} in
  match ModuleFile_load E inputFile with
  | (Valid, Some file) =>
      let r := associateWithModule E file (length (Modules s))
                 (<[moduleID.1 := length (Modules s)]> (LoadedModules s)) in
      if r.1 then
        LoadedModuleFiles s'
        = LoadedModuleFiles s ++ [(r.2, nextGeneration (CurrentGeneration s))]
        ∧ Diags s' = Diags s
        ∧ Modules s' = Modules s ++ [handle (Some r.2)]
      else
        LoadedModuleFiles s' = LoadedModuleFiles s
        ∧ (∃ d, Diags s' = Diags s ++ [(moduleID.2, d)])
        ∧ Modules s' = Modules s ++ [handle None]
  | (Valid, None) =>
      LoadedModuleFiles s' = LoadedModuleFiles s
      ∧ Diags s' = Diags s
      ∧ Modules s' = Modules s ++ [handle None]
  | (FormatTooNew, _) =>
      LoadedModuleFiles s' = LoadedModuleFiles s
      ∧ Diags s' = Diags s ++ [(moduleID.2, serialization_module_too_new)]
      ∧ Modules s' = Modules s ++ [handle None]
  | (Malformed, _) =>
      LoadedModuleFiles s' = LoadedModuleFiles s
      ∧ Diags s' = Diags s ++ [(moduleID.2, serialization_malformed_module)]
      ∧ Modules s' = Modules s ++ [handle None]
  | (MissingDependency, _) => False
  end.
Proof.
  intros H handle. subst handle. unfold loadInputFile, associate, diagnoseMissing in H.
  destruct (ModuleFile_load E inputFile) as [[] [file|]];
    unfold_monad; cbn in H; try done;
    try (simplify_eq; cbn; by rewrite ?alter_last).
  cbv zeta.
  destruct (associateWithModule E file (length (Modules s))
              (<[moduleID.1 := length (Modules s)]> (LoadedModules s))) as [[] file'];
    cbn in H |- *.
  - simplify_eq. cbn. by rewrite alter_last.
  - destruct (isMissingDependency (getStatus file')); [|done]. cbn in H.
    destruct (missingDependencies (getDependencies file')) as [|d [|d' rest]];
      cbn in H; [done| |];
      simplify_eq; cbn; rewrite ?alter_last, ?list_alter_alter_eq, ?alter_last;
      (split; [done|split; [by eexists|done]]).
Qed.

Lemma locateInputFile_Diags (E : Env) (path : AccessPathTy) (moduleID : AccessPathElem)
    (s s1 : State) (located : option MemoryBuffer) :
  locateInputFile E path moduleID s = Done located s1 →
  ∃ newDiags, Diags s1 = Diags s ++ newDiags.
Proof.
  rewrite locateInputFile_run. intros H.
  destruct (mjoin (Bitstreams s !! bitstreamKey E path)); simplify_eq; cbn.
  - exists []. by rewrite app_nil_r.
  - by eexists.
Qed.

(** One completed load, summed up: what it appended and what it recorded. *)
Lemma loadModule_step (E : Env) (importLoc : SourceLoc) (path : AccessPathTy)
    (s s' : State) (result : option ModulePtr) :
  loadModule E importLoc path s = Done result s' →
  (∃ newDiags, Diags s' = Diags s ++ newDiags)
  ∧ match result with
    | None =>
        LoadedModules s' = LoadedModules s
        ∧ Modules s' = Modules s
        ∧ LoadedModuleFiles s' = LoadedModuleFiles s
        ∧ CurrentGeneration s' = CurrentGeneration s
    | Some module =>
        ∃ moduleID handle,
          head path = Some moduleID
          ∧ module = length (Modules s)
          ∧ Modules s' = Modules s ++ [handle]
          ∧ Name handle = moduleID.1
          ∧ LoadedModules s' = <[moduleID.1 := module]> (LoadedModules s)
          ∧ match File handle with
            | Some file =>
                CurrentGeneration s' = nextGeneration (CurrentGeneration s)
                ∧ LoadedModuleFiles s'
                  = LoadedModuleFiles s ++ [(file, CurrentGeneration s')]
            | None =>
                LoadedModuleFiles s' = LoadedModuleFiles s
                ∧ (CurrentGeneration s' = CurrentGeneration s
                   ∨ CurrentGeneration s' = nextGeneration (CurrentGeneration s))
            end
    end.
Proof.
  unfold loadModule. destruct (1 <? length path)%nat.
  { intros H; unfold mret, M_ret in H; simplify_eq.
    split; [exists []; by rewrite app_nil_r|done]. }
  destruct path as [|moduleID rest]; [done|].
  unfold mbind at 1, M_bind at 1.
  destruct (locateInputFile E (moduleID :: rest) moduleID s) as [located s1|why] eqn:Hloc;
    [|done].
  pose proof (locateInputFile_Diags _ _ _ _ _ _ Hloc) as [d1 HD1].
  apply locateInputFile_frame in Hloc as (HLMF & HLM & HG & HM & _ & _).
  destruct located as [inputFile|];
    [|by intros H; unfold mret, M_ret in H; simplify_eq; repeat split; eauto].
  unfold mbind, M_bind.
  destruct (loadInputFile E moduleID inputFile s1) as [module s2|why] eqn:Hload; [|done].
  intros H; unfold mret, M_ret in H; simplify_eq.
  pose proof (loadInputFile_inv _ _ _ _ _ _ Hload) as (Hm & _ & _ & HG2 & HLM2 & _).
  pose proof (loadInputFile_outcome _ _ _ _ _ _ Hload) as Hout. cbv zeta in Hout.
  rewrite HM, HLM, HG in *. rewrite HLMF, HD1 in Hout.
  destruct (ModuleFile_load E inputFile) as [[] [file|]]; cbn in HG2; try done.
  1: destruct (associateWithModule E file (length (Modules s))
                 (<[moduleID.1 := length (Modules s)]> (LoadedModules s)))
       as [[] file']; cbn in Hout.
  all: destruct Hout as (HLMF2 & HD2 & HM2).
  all: try match type of HD2 with ex _ => destruct HD2 as [d HD2] end.
  all: split; [rewrite HD2, <- ?app_assoc; by eexists|].
  all: eexists moduleID, _; split; [done|]; split; [done|]; split; [exact HM2|].
  all: split; [done|]; split; [done|]; cbn; rewrite ?HG2; eauto.
Qed.

(** ** Further properties of the loader *)

(** X1. A lookup through an import scoped to another declaration (a
    one-element access path whose name differs from the name looked up)
    returns at once with the results it was given: the module pointer is not
    even read, whatever the module holds. *)
Theorem lookupValue_scoped_import (module : ModulePtr) (front name : Identifier)
    (loc : SourceLoc) (lookupKind : NLKind) (results : list ValueDecl) (s : State) :
  front ≠ name →
  lookupValue module [(front, loc)] name lookupKind results s = Done results s.
Proof.
  intros Hne. unfold lookupValue. cbn.
  destruct (String.eqb_spec front name) as [Heq|_]; [done|]. reflexivity.
Qed.

Lemma lookupValue_scoped_import_witness :
  lookupValue 0%nat [("y", InvalidLoc)] "x" UnqualifiedLookup [] Sample.withCore
  = Done [] Sample.withCore
  ∧ lookupValue 0%nat [("x", InvalidLoc)] "x" UnqualifiedLookup [] Sample.withCore
    = Done [MkDecl 1] Sample.withCore.
Proof.
  split; [|reflexivity]. apply lookupValue_scoped_import. discriminate.
Defined.

(** X2. When the parse is Valid and the association succeeds, the load emits
    no diagnostic, bumps the counter once, appends the associated module
    file to [LoadedModuleFiles] stamped with the counter's new value, and
    returns a handle, filed in the module table under the module's name,
    whose debug name is the identifier of the buffer that was read and whose
    reader reference is that same module file: an unscoped value lookup on
    the handle is answered by it. *)
Theorem usable_load_registers_reader (E : Env) (importLoc : SourceLoc)
    (name : Identifier) (loc : SourceLoc) (s s1 : State) (inputFile : MemoryBuffer)
    (file file' : ModuleFile) :
  locateInputFile E [(name, loc)] (name, loc) s = Done (Some inputFile) s1 →
  ModuleFile_load E inputFile = (Valid, Some file) →
  let module := length (Modules s) in
  associateWithModule E file module (<[name := module]> (LoadedModules s)) = (true, file') →
  ∃ s', loadModule E importLoc [(name, loc)] s = Done (Some module) s'
    ∧ Diags s' = Diags s
    ∧ CurrentGeneration s' = nextGeneration (CurrentGeneration s)
    ∧ LoadedModuleFiles s' = LoadedModuleFiles s ++ [(file', CurrentGeneration s')]
    ∧ LoadedModules s' !! name = Some module
    ∧ Modules s' !! module
      = Some {| Name := name; DebugModuleName := BufferIdentifier inputFile;
                File := Some file' |}
    ∧ ∀ wanted lookupKind results,
        lookupValue module [] wanted lookupKind results s'
        = Done (results ++ mf_lookupValue file' wanted) s'.
Proof.
  intros Hloc Hload module Hassoc.
  rewrite loadModule_single, Hloc.
  apply locateInputFile_frame in Hloc as (HLMF & HLM & HG & HM & HD & _).
  specialize (HD (mk_is_Some _ _ eq_refl)).
  subst module. rewrite <- HM, <- HLM in *. rewrite <- HD, <- HLMF, <- HG.
  unfold loadInputFile, associate. rewrite Hload.
  unfold_monad. cbn. rewrite Hassoc. cbn.
  eexists. split; [reflexivity|]. cbn. rewrite alter_last.
  assert (Hhandle : (Modules s1 ++ [setFile (Some file')
             {| Name := name; DebugModuleName := BufferIdentifier inputFile;
                File := Some file |}]) !! length (Modules s1)
           = Some {| Name := name; DebugModuleName := BufferIdentifier inputFile;
                     File := Some file' |}) by (by rewrite list_lookup_middle).
  repeat split; try done; [by rewrite lookup_insert_eq|].
  intros wanted lookupKind results. unfold lookupValue, derefModule. unfold_monad. cbn.
  by rewrite Hhandle.
Qed.

Lemma usable_load_registers_reader_witness :
  ∃ s', loadModule Sample.env InvalidLoc [("Near", Sample.inSrc)] Sample.withCore
        = Done (Some 1%nat) s'
        ∧ Diags s' = []
        ∧ CurrentGeneration s' = 2
        ∧ (DebugModuleName <$> Modules s' !! 1%nat) = Some "/src/Near.swiftmodule"
        ∧ lookupValue 1%nat [] "x" UnqualifiedLookup [] s' = Done [MkDecl 1] s'.
Proof.
  edestruct (usable_load_registers_reader Sample.env InvalidLoc "Near" Sample.inSrc
               Sample.withCore)
    as (s' & Hrun & HD & HG & _ & _ & Hhandle & Hlookup).
  - vm_compute. reflexivity.
  - vm_compute. reflexivity.
  - vm_compute. reflexivity.
  - exists s'. split; [exact Hrun|]. split; [exact HD|]. split; [exact HG|].
    change (Modules s' !! 1%nat = Some
              {| Name := "Near"; DebugModuleName := "/src/Near.swiftmodule";
                 File := Some (Sample.bindAll (Sample.moduleFile []) 1%nat
                                 (<["Near" := 1%nat]> (LoadedModules Sample.withCore))).2 |})
      in Hhandle.
    split; [by rewrite Hhandle|]. apply (Hlookup "x" UnqualifiedLookup []).
Defined.

(** X3. When the reader answers FormatTooNew or Malformed, the load still
    returns a handle filed under the module's name, but with a null reader
    reference even if the reader handed back a module file; it emits exactly
    the matching diagnostic at the import location and leaves the counter and
    [LoadedModuleFiles] alone. *)
Theorem unreadable_format_gives_inert_handle (E : Env) (importLoc : SourceLoc)
    (name : Identifier) (loc : SourceLoc) (s s1 : State) (inputFile : MemoryBuffer) :
  locateInputFile E [(name, loc)] (name, loc) s = Done (Some inputFile) s1 →
  (ModuleFile_load E inputFile).1 = FormatTooNew
  ∨ (ModuleFile_load E inputFile).1 = Malformed →
  let module := length (Modules s) in
  ∃ s', loadModule E importLoc [(name, loc)] s = Done (Some module) s'
    ∧ Diags s' = Diags s
        ++ [(loc, match (ModuleFile_load E inputFile).1 with
                  | FormatTooNew => serialization_module_too_new
                  | _ => serialization_malformed_module
                  end)]
    ∧ CurrentGeneration s' = CurrentGeneration s
    ∧ LoadedModuleFiles s' = LoadedModuleFiles s
    ∧ LoadedModules s' !! name = Some module
    ∧ Modules s' !! module
      = Some {| Name := name; DebugModuleName := BufferIdentifier inputFile;
                File := None |}.
Proof.
  intros Hloc Hstatus module.
  rewrite loadModule_single, Hloc.
  apply locateInputFile_frame in Hloc as (HLMF & HLM & HG & HM & HD & _).
  specialize (HD (mk_is_Some _ _ eq_refl)).
  subst module. rewrite <- HM, <- HD, <- HLMF, <- HG.
  unfold loadInputFile.
  destruct (ModuleFile_load E inputFile) as [status loaded]. cbn in Hstatus |- *.
  destruct Hstatus as [-> | ->]; unfold_monad; cbn.
  all: eexists; split; [reflexivity|]; cbn.
  all: rewrite lookup_insert_eq, list_lookup_middle by done; done.
Qed.

Lemma unreadable_format_gives_inert_handle_witness :
  (∃ s', loadModule Sample.env InvalidLoc [("Old", InvalidLoc)] Sample.initial
         = Done (Some 0%nat) s'
         ∧ Diags s' = [(InvalidLoc, serialization_module_too_new)]
         ∧ CurrentGeneration s' = 0)
  ∧ (∃ s', loadModule Sample.env InvalidLoc [("Junk", InvalidLoc)] Sample.initial
           = Done (Some 0%nat) s'
           ∧ Diags s' = [(InvalidLoc, serialization_malformed_module)]
           ∧ CurrentGeneration s' = 0).
Proof.
  split.
  - edestruct (unreadable_format_gives_inert_handle Sample.env InvalidLoc "Old" InvalidLoc
                 Sample.initial) as (s' & Hrun & HD & HG & _).
    + vm_compute. reflexivity.
    + left. reflexivity.
    + exists s'. split; [exact Hrun|]. split; [exact HD|exact HG].
  - edestruct (unreadable_format_gives_inert_handle Sample.env InvalidLoc "Junk" InvalidLoc
                 Sample.initial) as (s' & Hrun & HD & HG & _).
    + vm_compute. reflexivity.
    + right. reflexivity.
    + exists s'. split; [exact Hrun|]. split; [exact HD|exact HG].
Defined.

Lemma isMissingDependency_true (status : ModuleStatus) :
  isMissingDependency status = true ↔ status = MissingDependency.
Proof. by destruct status. Qed.

Lemma loadInputFile_aborts (E : Env) (moduleID : AccessPathElem) (inputFile : MemoryBuffer)
    (s : State) :
  (∃ why, loadInputFile E moduleID inputFile s = Abort why)
  ↔ match ModuleFile_load E inputFile with
    | (MissingDependency, _) => True
    | (Valid, Some file) =>
        let r := associateWithModule E file (length (Modules s))
                   (<[moduleID.1 := length (Modules s)]> (LoadedModules s)) in
        r.1 = false
        ∧ (getStatus r.2 ≠ MissingDependency
           ∨ missingDependencies (getDependencies r.2) = [])
    | _ => False
    end.
Proof.
  unfold loadInputFile, associate, diagnoseMissing.
  destruct (ModuleFile_load E inputFile) as [[] [file|]]; unfold_monad; cbn;
    try (split; [by intros [why ?]|done]); try (split; [done|by eexists]).
  destruct (associateWithModule E file (length (Modules s))
              (<[moduleID.1 := length (Modules s)]> (LoadedModules s))) as [[] file'];
    cbn.
  { split; [by intros [why ?]|by intros [? _]]. }
  destruct (isMissingDependency (getStatus file')) eqn:Hstatus; cbn.
  - apply isMissingDependency_true in Hstatus.
    destruct (missingDependencies (getDependencies file')) as [|d [|d' rest]]; cbn.
    + split; [by auto|by eexists].
    + split; [by intros [why ?]|by intros [_ [?|?]]].
    + split; [by intros [why ?]|by intros [_ [?|?]]].
  - split; [|by eexists]. intros _. split; [done|]. left.
    intros Heq. apply isMissingDependency_true in Heq. congruence.
Qed.

(** X4. A load of a single-element path aborts in exactly three cases, all
    of them the reader breaking its contract on a buffer that was found: the
    reader answers MissingDependency at the parse, or an association fails
    without leaving the status MissingDependency, or it fails with every
    dependency loaded.  The search itself never aborts: the assertion that
    an input file is at hand cannot fail. *)
Theorem load_aborts_iff_contract_broken (E : Env) (importLoc : SourceLoc)
    (name : Identifier) (loc : SourceLoc) (s : State) :
  (∃ why, loadModule E importLoc [(name, loc)] s = Abort why)
  ↔ ∃ inputFile s1,
      locateInputFile E [(name, loc)] (name, loc) s = Done (Some inputFile) s1
      ∧ match ModuleFile_load E inputFile with
        | (MissingDependency, _) => True
        | (Valid, Some file) =>
            let r := associateWithModule E file (length (Modules s))
                       (<[name := length (Modules s)]> (LoadedModules s)) in
            r.1 = false
            ∧ (getStatus r.2 ≠ MissingDependency
               ∨ missingDependencies (getDependencies r.2) = [])
        | _ => False
        end.
Proof.
  rewrite loadModule_single.
  destruct (locateInputFile E [(name, loc)] (name, loc) s) as [located s1|why] eqn:Hloc.
  2: { rewrite locateInputFile_run in Hloc. by destruct (mjoin _). }
  pose proof (locateInputFile_frame _ _ _ _ _ _ Hloc) as (_ & HLM & _ & HM & _).
  destruct located as [inputFile|].
  - pose proof (loadInputFile_aborts E (name, loc) inputFile s1) as Habort.
    rewrite HM, HLM in Habort. cbn [fst] in Habort. split.
    + intros [why Hwhy]. exists inputFile, s1. split; [done|]. apply Habort.
      destruct (loadInputFile E (name, loc) inputFile s1); [done|by eexists].
    + intros (inputFile' & s1' & [= <- <-] & Hbroken).
      apply Habort in Hbroken as [why ->]. by eexists.
  - split; [by intros [why ?]|by intros (? & ? & ? & _)].
Qed.

(** X5. The handle a completed load returns has its reader reference set
    exactly when that load appended an entry to [LoadedModuleFiles]: the entry
    holds the very module file the handle refers to, stamped with the current
    generation, which the load has bumped; with a null reader reference the
    list is as it was. *)
Theorem reader_set_iff_registered (E : Env) (importLoc : SourceLoc) (path : AccessPathTy)
    (s s' : State) (module : ModulePtr) :
  loadModule E importLoc path s = Done (Some module) s' →
  ∃ handle,
    Modules s' !! module = Some handle
    ∧ match File handle with
      | Some file =>
          LoadedModuleFiles s' = LoadedModuleFiles s ++ [(file, CurrentGeneration s')]
          ∧ CurrentGeneration s' = nextGeneration (CurrentGeneration s)
      | None => LoadedModuleFiles s' = LoadedModuleFiles s
      end.
Proof.
  intros Hrun. apply loadModule_step in Hrun as [_ Hstep].
  destruct Hstep as (moduleID & handle & _ & -> & HM & _ & _ & Hfile).
  exists handle. split; [by rewrite HM, list_lookup_middle|].
  destruct (File handle); [by destruct Hfile|by destruct Hfile].
Qed.

Lemma reader_set_iff_registered_witness :
  (∃ handle, Modules Sample.withCore !! 0%nat = Some handle
             ∧ is_Some (File handle)
             ∧ length (LoadedModuleFiles Sample.withCore) = 1%nat)
  ∧ (∃ handle, Modules Sample.withOne !! 0%nat = Some handle
               ∧ File handle = None
               ∧ LoadedModuleFiles Sample.withOne = []).
Proof.
  split.
  - destruct (reader_set_iff_registered Sample.env InvalidLoc [("Core", InvalidLoc)]
                Sample.initial Sample.withCore 0%nat) as (handle & Hhandle & Hfile).
    + vm_compute. reflexivity.
    + exists handle. split; [exact Hhandle|].
      change (Modules Sample.withCore !! 0%nat) with
        (Some {| Name := "Core"; DebugModuleName := "Core.swiftmodule";
                 File := Some (Sample.bindAll (Sample.moduleFile []) 0%nat
                                 (<["Core" := 0%nat]> ∅)).2 |}) in Hhandle.
      injection Hhandle as <-. split; [by eexists|reflexivity].
  - destruct (reader_set_iff_registered Sample.env InvalidLoc [("One", InvalidLoc)]
                Sample.initial Sample.withOne 0%nat) as (handle & Hhandle & Hfile).
    + vm_compute. reflexivity.
    + exists handle. split; [exact Hhandle|].
      change (Modules Sample.withOne !! 0%nat) with
        (Some {| Name := "One"; DebugModuleName := "/lib/One.swiftmodule";
                 File := None |}) in Hhandle.
      injection Hhandle as <-. split; [reflexivity|exact Hfile].
Defined.

(** ** Sequences of loads *)

(** A relation between states that every single load keeps, and that is
    reflexive and transitive, holds across any sequence of loads. *)
Lemma loadModules_invariant (E : Env) (R : State → State → Prop) :
  (∀ s, R s s) →
  (∀ s1 s2 s3, R s1 s2 → R s2 s3 → R s1 s3) →
  (∀ importLoc path s s' result,
     loadModule E importLoc path s = Done result s' → R s s') →
  ∀ requests s s' results, loadModules E requests s = Done results s' → R s s'.
Proof.
  intros Hrefl Htrans Hstep requests.
  induction requests as [|[importLoc path] rest IH]; intros s s' results H.
  - cbn in H. unfold mret, M_ret in H. by simplify_eq.
  - cbn [loadModules] in H. unfold mbind at 1, M_bind at 1 in H.
    destruct (loadModule E importLoc path s) as [module s1|why] eqn:Hfirst; [|done].
    unfold mbind, M_bind, mret, M_ret in H.
    destruct (loadModules E rest s1) as [modules s2|why] eqn:Hrest; [|done].
    simplify_eq. eapply Htrans; [by eapply Hstep|by eapply IH].
Qed.

(** X6. Loads only ever append: after any sequence of load requests the
    earlier entries of [LoadedModuleFiles], the earlier handles and the
    earlier diagnostics are all still there, unchanged and in place.  In
    particular a handle keeps the reader reference it was given, so a module
    left inert stays inert whatever is loaded after it. *)
Theorem loads_append_only (E : Env) (requests : list (SourceLoc * AccessPathTy))
    (s s' : State) (results : list (option ModulePtr)) :
  loadModules E requests s = Done results s' →
  LoadedModuleFiles s `prefix_of` LoadedModuleFiles s'
  ∧ Modules s `prefix_of` Modules s'
  ∧ Diags s `prefix_of` Diags s'
  ∧ ∀ module handle,
      Modules s !! module = Some handle → Modules s' !! module = Some handle.
Proof.
  intros Hrun.
  assert (H : LoadedModuleFiles s `prefix_of` LoadedModuleFiles s'
              ∧ Modules s `prefix_of` Modules s'
              ∧ Diags s `prefix_of` Diags s').
  { revert requests s s' results Hrun.
    apply (loadModules_invariant E (fun s s' =>
             LoadedModuleFiles s `prefix_of` LoadedModuleFiles s'
             ∧ Modules s `prefix_of` Modules s'
             ∧ Diags s `prefix_of` Diags s')).
    - done.
    - intros s1 s2 s3 (? & ? & ?) (? & ? & ?). repeat split; by etrans.
    - intros importLoc path s s' result Hstep.
      apply loadModule_step in Hstep as [[newDiags HD] Hstep].
      split; [|split; [|by exists newDiags]].
      + destruct result as [module|].
        * destruct Hstep as (moduleID & handle & _ & _ & _ & _ & _ & Hfile).
          destruct (File handle).
          -- destruct Hfile as [_ ->]. by eexists.
          -- destruct Hfile as [-> _]. done.
        * by destruct Hstep as (_ & _ & -> & _).
      + destruct result as [module|].
        * destruct Hstep as (moduleID & handle & _ & _ & -> & _). by eexists.
        * by destruct Hstep as (_ & -> & _). }
  destruct H as (HLMF & HM & HD). repeat split; try done.
  intros module handle Hhandle. by eapply prefix_lookup_Some.
Qed.

Lemma loads_append_only_witness :
  let s' :=
    Sample.stateAfter
      (loadModules Sample.env
         [(InvalidLoc, [("Foo", InvalidLoc)]); (InvalidLoc, [("Core", InvalidLoc)])])
      Sample.withOne in
  (File <$> Modules s' !! 0%nat) = Some None
  ∧ Diags Sample.withOne `prefix_of` Diags s'.
Proof.
  intros s'.
  destruct (loads_append_only Sample.env
              [(InvalidLoc, [("Foo", InvalidLoc)]); (InvalidLoc, [("Core", InvalidLoc)])]
              Sample.withOne s' [None; Some 1%nat]) as (_ & _ & HD & Hhandle).
  - vm_compute. reflexivity.
  - split; [|exact HD].
    rewrite (Hhandle 0%nat {| Name := "One"; DebugModuleName := "/lib/One.swiftmodule";
                              File := None |}); reflexivity.
Defined.

(** X7. The module table stays consistent across any sequence of loads:
    every entry points to a handle that has been allocated and that carries
    the name the entry is filed under. *)
Theorem module_table_consistent (E : Env) (requests : list (SourceLoc * AccessPathTy))
    (s s' : State) (results : list (option ModulePtr)) :
  tableConsistent s →
  loadModules E requests s = Done results s' →
  tableConsistent s'.
Proof.
  intros Hs Hrun. revert Hs. revert requests s s' results Hrun.
  apply (loadModules_invariant E (fun s s' => tableConsistent s → tableConsistent s')).
  - done.
  - intros s1 s2 s3 H12 H23 H1. auto.
  - intros importLoc path s s' result Hstep Hs.
    apply loadModule_step in Hstep as [_ Hstep].
    destruct result as [module|].
    + destruct Hstep as (moduleID & handle & _ & -> & HM & Hname & HLM & _).
      intros name module. rewrite HLM, HM.
      destruct (decide (moduleID.1 = name)) as [<-|Hne].
      * rewrite lookup_insert_eq. intros [= <-].
        exists handle. by rewrite list_lookup_middle.
      * rewrite lookup_insert_ne by done. intros Hlookup.
        destruct (Hs name module Hlookup) as (old & Hold & Holdname).
        exists old. split; [by apply lookup_app_l_Some|done].
    + destruct Hstep as (HLM & HM & _).
      intros name module. rewrite HLM, HM. apply Hs.
Qed.

Lemma module_table_consistent_witness :
  let s' :=
    Sample.stateAfter
      (loadModules Sample.env
         [(InvalidLoc, [("Core", InvalidLoc)]); (InvalidLoc, [("Old", InvalidLoc)]);
          (InvalidLoc, [("Core", InvalidLoc)])])
      Sample.initial in
  tableConsistent s' ∧ LoadedModules s' !! "Core" = Some 2%nat.
Proof.
  intros s'. split; [|reflexivity].
  apply (module_table_consistent Sample.env
           [(InvalidLoc, [("Core", InvalidLoc)]); (InvalidLoc, [("Old", InvalidLoc)]);
            (InvalidLoc, [("Core", InvalidLoc)])]
           Sample.initial s' [Some 0%nat; Some 1%nat; Some 2%nat]).
  - intros name module Hlookup. cbn in Hlookup. by rewrite lookup_empty in Hlookup.
  - vm_compute. reflexivity.
Defined.

(** X8. No handle is left with a dangling reader reference: across any
    sequence of loads, a reader reference that is set is a module file held
    in [LoadedModuleFiles]. *)
Theorem readers_stay_registered (E : Env) (requests : list (SourceLoc * AccessPathTy))
    (s s' : State) (results : list (option ModulePtr)) :
  readersRegistered s →
  loadModules E requests s = Done results s' →
  readersRegistered s'.
Proof.
  intros Hs Hrun. revert Hs. revert requests s s' results Hrun.
  apply (loadModules_invariant E (fun s s' => readersRegistered s → readersRegistered s')).
  - done.
  - intros s1 s2 s3 H12 H23 H1. auto.
  - intros importLoc path s s' result Hstep Hs.
    apply loadModule_step in Hstep as [_ Hstep].
    destruct result as [module|].
    + destruct Hstep as (moduleID & new & _ & -> & HM & _ & _ & Hfile).
      intros module handle file. rewrite HM. intros Hlookup Hreader.
      apply lookup_app_Some in Hlookup as [Hold|[_ Hnew]].
      * destruct (Hs module handle file Hold Hreader) as [generation Hin].
        exists generation. destruct (File new).
        -- destruct Hfile as [_ ->]. apply elem_of_app. by left.
        -- by destruct Hfile as [-> _].
      * apply list_lookup_singleton_Some in Hnew as [_ <-].
        rewrite Hreader in Hfile. destruct Hfile as [_ ->].
        eexists. apply elem_of_app. right. by apply list_elem_of_singleton.
    + destruct Hstep as (_ & HM & HLMF & _).
      intros module handle file. rewrite HM, HLMF. apply Hs.
Qed.

Lemma readers_stay_registered_witness :
  let s' :=
    Sample.stateAfter
      (loadModules Sample.env
         [(InvalidLoc, [("Core", InvalidLoc)]); (InvalidLoc, [("Two", InvalidLoc)])])
      Sample.initial in
  readersRegistered s' ∧ length (Modules s') = 2%nat.
Proof.
  intros s'. split; [|reflexivity].
  apply (readers_stay_registered Sample.env
           [(InvalidLoc, [("Core", InvalidLoc)]); (InvalidLoc, [("Two", InvalidLoc)])]
           Sample.initial s' [Some 0%nat; Some 1%nat]).
  - intros module handle file Hlookup. cbn in Hlookup. by rewrite lookup_nil in Hlookup.
  - vm_compute. reflexivity.
Defined.

(** ** Generations *)

Lemma nextGeneration_small (generation : Z) :
  (0 ≤ generation)%Z → (generation + 1 < UINT_MODULUS)%Z →
  nextGeneration generation = (generation + 1)%Z.
Proof. intros H0 H1. unfold nextGeneration. apply Z.mod_small. lia. Qed.

Lemma loadModule_generations (E : Env) (importLoc : SourceLoc) (path : AccessPathTy)
    (s s' : State) (result : option ModulePtr) :
  (0 ≤ CurrentGeneration s)%Z →
  (CurrentGeneration s + 1 < UINT_MODULUS)%Z →
  loadModule E importLoc path s = Done result s' →
  (CurrentGeneration s ≤ CurrentGeneration s' ≤ CurrentGeneration s + 1)%Z
  ∧ ∃ new, LoadedModuleFiles s' = LoadedModuleFiles s ++ new
      ∧ Forall (fun modulePair =>
                  (CurrentGeneration s < modulePair.2 ≤ CurrentGeneration s')%Z) new.
Proof.
  intros H0 H1 Hstep. apply loadModule_step in Hstep as [_ Hstep].
  pose proof (nextGeneration_small _ H0 H1) as Hnext.
  destruct result as [module|].
  - destruct Hstep as (moduleID & handle & _ & _ & _ & _ & _ & Hfile).
    destruct (File handle).
    + destruct Hfile as [HG HLMF]. rewrite Hnext in HG. split; [lia|].
      eexists. split; [exact HLMF|]. repeat constructor; cbn; lia.
    + destruct Hfile as [HLMF HG]. rewrite Hnext in HG. split; [lia|].
      exists []. split; [by rewrite app_nil_r|constructor].
  - destruct Hstep as (_ & _ & HLMF & HG). split; [lia|].
    exists []. split; [by rewrite app_nil_r|constructor].
Qed.

Lemma loadModules_generations (E : Env) (requests : list (SourceLoc * AccessPathTy)) :
  ∀ (s s' : State) (results : list (option ModulePtr)),
    (0 ≤ CurrentGeneration s)%Z →
    (CurrentGeneration s + Z.of_nat (length requests) < UINT_MODULUS)%Z →
    loadModules E requests s = Done results s' →
    (CurrentGeneration s ≤ CurrentGeneration s'
     ≤ CurrentGeneration s + Z.of_nat (length requests))%Z
    ∧ ∃ new, LoadedModuleFiles s' = LoadedModuleFiles s ++ new
        ∧ Forall (fun modulePair =>
                    (CurrentGeneration s < modulePair.2 ≤ CurrentGeneration s')%Z) new.
Proof.
  induction requests as [|[importLoc path] rest IH]; intros s s' results H0 Hroom H.
  - cbn in H. unfold mret, M_ret in H. simplify_eq. cbn. split; [lia|].
    exists []. split; [by rewrite app_nil_r|constructor].
  - cbn [loadModules] in H. unfold mbind at 1, M_bind at 1 in H.
    destruct (loadModule E importLoc path s) as [module s1|why] eqn:Hfirst; [|done].
    unfold mbind, M_bind, mret, M_ret in H.
    destruct (loadModules E rest s1) as [modules s2|why] eqn:Hrest; [|done].
    simplify_eq. cbn [length] in Hroom |- *.
    apply loadModule_generations in Hfirst as (HG1 & new1 & HL1 & Hnew1); [|lia..].
    apply IH in Hrest as (HG2 & new2 & HL2 & Hnew2); [|lia..].
    split; [lia|]. exists (new1 ++ new2). split; [by rewrite HL2, HL1, <- app_assoc|].
    apply Forall_app. split.
    + eapply Forall_impl; [exact Hnew1|]. cbn. intros p Hp. lia.
    + eapply Forall_impl; [exact Hnew2|]. cbn. intros p Hp. lia.
Qed.

Lemma filter_since_old (previousGeneration : Z) (entries : list (ModuleFile * Z)) :
  Forall (fun modulePair => (modulePair.2 ≤ previousGeneration)%Z) entries →
  List.filter (fun modulePair => (previousGeneration <? modulePair.2)%Z) entries = [].
Proof.
  induction 1 as [|p rest Hp _ IH]; cbn; [done|].
  destruct (Z.ltb_spec previousGeneration p.2); [lia|done].
Qed.

Lemma filter_since_new (previousGeneration : Z) (entries : list (ModuleFile * Z)) :
  Forall (fun modulePair => (previousGeneration < modulePair.2)%Z) entries →
  List.filter (fun modulePair => (previousGeneration <? modulePair.2)%Z) entries = entries.
Proof.
  induction 1 as [|p rest Hp _ IH]; cbn; [done|].
  destruct (Z.ltb_spec previousGeneration p.2); [by rewrite IH|lia].
Qed.

(** X9. Asking for what is new since a generation observed earlier gives
    exactly what was loaded in between.  From a state whose recorded
    generations do not lie ahead of the counter, and with room left before
    the counter wraps, run any sequence of loads: [loadExtensions] and
    [loadDeclsConformingTo], called with the counter's value from before the
    sequence, then delegate to the module files the sequence appended to
    [LoadedModuleFiles], in order, and to none of the earlier ones.  The
    bound on the recorded generations holds again afterwards. *)
Theorem extensions_since_observed_generation (E : Env)
    (requests : list (SourceLoc * AccessPathTy)) (s s' : State)
    (results : list (option ModulePtr)) (nominal : NominalTypeDecl)
    (kind : KnownProtocolKind) :
  generationsBounded s →
  (CurrentGeneration s + Z.of_nat (length requests) < UINT_MODULUS)%Z →
  loadModules E requests s = Done results s' →
  let appended := drop (length (LoadedModuleFiles s)) (LoadedModuleFiles s') in
  generationsBounded s'
  ∧ loadExtensions nominal (CurrentGeneration s) s'
    = Done tt (set_Trace
                 (Trace s' ++ map (fun modulePair => EvLoadExtensions modulePair.1 nominal)
                               appended) s')
  ∧ loadDeclsConformingTo kind (CurrentGeneration s) s'
    = Done tt (set_Trace
                 (Trace s' ++ map (fun modulePair => EvLoadDeclsConformingTo modulePair.1 kind)
                               appended) s').
Proof.
  intros [[H0 HM] Hold] Hroom Hrun appended.
  apply loadModules_generations in Hrun as (HG & new & HL & Hnew); [|lia..].
  assert (Happended : appended = new).
  { subst appended. by rewrite HL, drop_app_length. }
  assert (Hfilter : List.filter (fun modulePair => (CurrentGeneration s <? modulePair.2)%Z)
                      (LoadedModuleFiles s') = new).
  { rewrite HL, List.filter_app, filter_since_old by done.
    apply filter_since_new. eapply Forall_impl; [exact Hnew|]. cbn. intros p Hp. lia. }
  rewrite Happended. split; [|split].
  - split; [lia|]. rewrite HL. apply Forall_app. split.
    + eapply Forall_impl; [exact Hold|]. cbn. intros p Hp. lia.
    + eapply Forall_impl; [exact Hnew|]. cbn. intros p Hp. lia.
  - unfold loadExtensions, gets. unfold mbind, M_bind.
    by rewrite forEachLoadedSince_run, Hfilter.
  - unfold loadDeclsConformingTo, gets. unfold mbind, M_bind.
    by rewrite forEachLoadedSince_run, Hfilter.
Qed.

Lemma extensions_since_observed_generation_witness :
  let s' :=
    Sample.stateAfter
      (loadModules Sample.env
         [(InvalidLoc, [("Near", Sample.inSrc)]); (InvalidLoc, [("One", InvalidLoc)]);
          (InvalidLoc, [("Shadow", InvalidLoc)])])
      Sample.withCore in
  let appended := drop (length (LoadedModuleFiles Sample.withCore)) (LoadedModuleFiles s') in
  map snd (LoadedModuleFiles s') = [1; 2; 4]
  ∧ map snd appended = [2; 4]
  ∧ loadExtensions (MkDecl 7) (CurrentGeneration Sample.withCore) s'
    = Done tt (set_Trace
                 (Trace s' ++ map (fun modulePair => EvLoadExtensions modulePair.1 (MkDecl 7))
                               appended) s').
Proof.
  intros s' appended.
  destruct (extensions_since_observed_generation Sample.env
              [(InvalidLoc, [("Near", Sample.inSrc)]); (InvalidLoc, [("One", InvalidLoc)]);
               (InvalidLoc, [("Shadow", InvalidLoc)])]
              Sample.withCore s' [Some 1%nat; Some 2%nat; Some 3%nat] (MkDecl 7) 0%N)
    as (_ & Hextensions & _).
  - split; [vm_compute; split; [discriminate|reflexivity]|].
    vm_compute. constructor; [discriminate|constructor].
  - vm_compute. reflexivity.
  - vm_compute. reflexivity.
  - split; [vm_compute; reflexivity|]. split; [vm_compute; reflexivity|].
    exact Hextensions.
Defined.

(** ** More on the search *)

(** X10. A load served from the registered bitstreams never touches the
    disk: whatever files exist, it reads none.  Its record of map lookups,
    file reads and parses shows the one lookup in the map followed by the
    parse of the registered buffer, and the handle it returns carries that
    buffer's identifier as its debug name. *)
Theorem registered_buffer_load_reads_no_file (E : Env) (importLoc : SourceLoc)
    (name : Identifier) (loc : SourceLoc) (s s' : State) (buffer : MemoryBuffer)
    (result : option ModulePtr) :
  Bitstreams s !! bitstreamKey E [(name, loc)] = Some (Some buffer) →
  loadModule E importLoc [(name, loc)] s = Done result s' →
  Trace s' = Trace s ++ [EvFindBitstream (bitstreamKey E [(name, loc)]);
                         EvLoad (BufferIdentifier buffer) (ModuleFile_load E buffer).1]
  ∧ ∃ handle, result = Some (length (Modules s))
      ∧ Modules s' !! length (Modules s) = Some handle
      ∧ DebugModuleName handle = BufferIdentifier buffer.
Proof.
  intros Hkey. rewrite loadModule_single, locateInputFile_run, Hkey. cbn [mjoin option_join].
  destruct (loadInputFile E (name, loc) buffer (afterBitstreamLookup E [(name, loc)] s))
    as [module s2|why] eqn:Hload; [|done].
  intros [= <- <-].
  apply loadInputFile_inv in Hload as (-> & _ & HT & _ & _ & handle & HM & _ & Hdebug).
  cbn in HT, HM. split.
  - rewrite HT, <- app_assoc.
    destruct (size (Bitstreams s) =? 0)%nat eqn:Hsize; [|done].
    apply Nat.eqb_eq, map_size_empty_iff in Hsize. by rewrite Hsize, lookup_empty in Hkey.
  - exists handle. cbn. split; [done|]. split; [by rewrite HM, list_lookup_middle|done].
Qed.

Lemma registered_buffer_load_reads_no_file_witness :
  Trace (Sample.stateAfter (loadModule Sample.env InvalidLoc [("Near", Sample.inSrc)])
           Sample.hosted)
  = [EvFindBitstream "Near"; EvLoad "<registered Near>" Valid].
Proof.
  refine (proj1 (registered_buffer_load_reads_no_file Sample.env InvalidLoc "Near"
                   Sample.inSrc Sample.hosted _ (Sample.registered "Near") (Some 0%nat)
                   eq_refl _)).
  vm_compute. reflexivity.
Defined.

Lemma firstReadable_none (E : Env) (filenames : list string) (err : error_code) :
  (firstReadable E filenames err).2 = None
  ↔ Forall (fun f => readBuffer E f = None) filenames.
Proof.
  revert err. induction filenames as [|f rest IH]; intros err; cbn; [done|].
  rewrite Forall_cons. unfold readBuffer.
  destruct (readFile E f); cbn; [by split; [|intros [? _]]|].
  rewrite IH. by split; [|intros [_ ?]].
Qed.

(** X11. The search for the input file always comes to an end, and it comes
    back empty-handed exactly when the registered bitstreams hold no buffer
    under the module's key and none of the file candidates can be read. *)
Theorem search_fails_iff_nothing_found (E : Env) (path : AccessPathTy)
    (moduleID : AccessPathElem) (s : State) :
  ∃ located s1,
    locateInputFile E path moduleID s = Done located s1
    ∧ (located = None
       ↔ mjoin (Bitstreams s !! bitstreamKey E path) = None
         ∧ Forall (fun f => readBuffer E f = None) (diskCandidates E moduleID)).
Proof.
  rewrite locateInputFile_run.
  destruct (mjoin (Bitstreams s !! bitstreamKey E path)) as [buffer|].
  - eexists _, _. split; [reflexivity|]. by split; [|intros [? _]].
  - eexists _, _. split; [reflexivity|].
    rewrite firstReadable_none. by split; [|intros [_ ?]].
Qed.

Lemma attempted_prefix (E : Env) (filenames : list string) :
  attempted E filenames `prefix_of` filenames.
Proof.
  induction filenames as [|f rest IH]; cbn; [done|].
  destruct (readFile E f); [by exists rest|by apply prefix_cons].
Qed.

Lemma attempted_nonempty (E : Env) (filenames : list string) :
  filenames ≠ [] → attempted E filenames ≠ [].
Proof. destruct filenames as [|f rest]; [done|]. cbn. by destruct (readFile E f). Qed.

Lemma attempted_last (E : Env) (filenames : list string) (err : error_code)
    (buffer : MemoryBuffer) :
  (firstReadable E filenames err).2 = Some buffer →
  ∃ f, last (attempted E filenames) = Some f ∧ readBuffer E f = Some buffer.
Proof.
  revert err. induction filenames as [|f rest IH]; intros err; cbn; [done|].
  unfold readBuffer at 1. destruct (readFile E f) as [b|errno] eqn:Hf; cbn.
  - intros [= ->]. exists f. unfold readBuffer. by rewrite Hf.
  - intros Hrest. destruct (IH _ Hrest) as (f' & Hlast & Hread). exists f'.
    split; [|done]. destruct (attempted E rest); [done|]. by rewrite last_cons, Hlast.
Qed.

(** X12. [findModule] changes nothing but the trace of file reads.  The
    files it reads are an initial stretch of its candidates, at least one and
    at most two more than there are import search paths; its error code is
    zero exactly when it hands back a buffer, and that buffer is the
    contents of the file it read last. *)
Theorem findModule_reads (E : Env) (moduleID : AccessPathElem) (s : State) :
  ∃ err buffer reads,
    findModule E moduleID s
    = Done (err, buffer) (set_Trace (Trace s ++ map EvGetFile reads) s)
    ∧ reads `prefix_of` diskCandidates E moduleID
    ∧ (1 ≤ length reads ≤ 2 + length (ImportSearchPaths E))%nat
    ∧ (err = errc_success ↔ is_Some buffer)
    ∧ ∀ found, buffer = Some found →
        ∃ f, last reads = Some f ∧ readBuffer E f = Some found.
Proof.
  rewrite findModule_run.
  destruct (firstReadable E (diskCandidates E moduleID) errc_success)
    as [err buffer] eqn:Hresult.
  exists err, buffer, (attempted E (diskCandidates E moduleID)).
  split; [reflexivity|]. split; [apply attempted_prefix|]. split; [|split].
  - pose proof (attempted_nonempty E _ (diskCandidates_nonempty E moduleID)) as Hne.
    pose proof (prefix_length _ _ (attempted_prefix E (diskCandidates E moduleID))) as Hle.
    split; [by destruct (attempted E (diskCandidates E moduleID)); [|cbn; lia]|].
    etrans; [exact Hle|]. unfold diskCandidates.
    rewrite length_app. cbn [length]. rewrite length_map.
    destruct (_ && _); cbn; lia.
  - destruct (firstReadable_cases E (diskCandidates E moduleID) errc_success
                (diskCandidates_nonempty E moduleID)) as [[b Hb]|[errno Hb]];
      rewrite Hb in Hresult; simplify_eq; [by split; [eexists|]|].
    split; [done|by intros [? ?]].
  - intros found ->.
    apply (attempted_last E (diskCandidates E moduleID) errc_success). by rewrite Hresult.
Qed.

(** ** Failed searches and diagnostics *)

(** X13. A load that returns no handle records nothing: the module table,
    the handles, [LoadedModuleFiles] and the counter are as before, and every
    registered bitstream still holds the buffer it held, so the same request
    can be made again later. *)
Theorem failed_load_records_nothing (E : Env) (importLoc : SourceLoc) (path : AccessPathTy)
    (s s' : State) :
  loadModule E importLoc path s = Done None s' →
  LoadedModules s' = LoadedModules s
  ∧ Modules s' = Modules s
  ∧ LoadedModuleFiles s' = LoadedModuleFiles s
  ∧ CurrentGeneration s' = CurrentGeneration s
  ∧ ∀ key, mjoin (Bitstreams s' !! key) = mjoin (Bitstreams s !! key).
Proof.
  intros Hrun.
  pose proof (loadModule_step _ _ _ _ _ _ Hrun) as [_ (HLM & HM & HLMF & HG)].
  repeat split; try done. intros key.
  unfold loadModule in Hrun. destruct (1 <? length path)%nat.
  { unfold mret, M_ret in Hrun. by simplify_eq. }
  destruct path as [|moduleID rest]; [done|].
  unfold mbind at 1, M_bind at 1 in Hrun. rewrite locateInputFile_run in Hrun.
  set (key0 := bitstreamKey E (moduleID :: rest)) in *.
  assert (Hkeep : mjoin (Bitstreams s !! key0) = None →
    mjoin (Bitstreams (afterBitstreamLookup E (moduleID :: rest) s) !! key)
    = mjoin (Bitstreams s !! key)).
  { intros Hnone. unfold afterBitstreamLookup. fold key0.
    destruct (Bitstreams s !! key0) as [[buffer|]|] eqn:Hentry; cbn; [done| |done].
    destruct (decide (key0 = key)) as [<-|Hne].
    - by rewrite lookup_insert_eq, Hentry.
    - by rewrite lookup_insert_ne. }
  destruct (mjoin (Bitstreams s !! key0)) as [buffer|] eqn:Hmem.
  - unfold mbind, M_bind, mret, M_ret in Hrun.
    by destruct (loadInputFile E moduleID buffer _).
  - destruct (firstReadable E (diskCandidates E moduleID) errc_success).2 as [buffer|].
    + unfold mbind, M_bind, mret, M_ret in Hrun.
      by destruct (loadInputFile E moduleID buffer _).
    + unfold mret, M_ret in Hrun. simplify_eq. cbn. by apply Hkeep.
Qed.

Lemma failed_load_records_nothing_witness :
  let s' :=
    Sample.stateAfter (loadModule Sample.env InvalidLoc [("Locked", Sample.inSrc)])
      Sample.hosted in
  LoadedModules s' = LoadedModules Sample.hosted
  ∧ mjoin (Bitstreams s' !! "Near") = Some (Sample.registered "Near").
Proof.
  intros s'.
  destruct (failed_load_records_nothing Sample.env InvalidLoc [("Locked", Sample.inSrc)]
              Sample.hosted s') as (HLM & _ & _ & _ & HB).
  - vm_compute. reflexivity.
  - split; [exact HLM|]. rewrite HB. reflexivity.
Defined.

Lemma searchDiagnostics_located (E : Env) (moduleID : AccessPathElem) :
  (length (searchDiagnostics E moduleID) ≤ 1)%nat
  ∧ Forall (fun d => d.1 = moduleID.2) (searchDiagnostics E moduleID)
  ∧ (is_Some (firstReadable E (diskCandidates E moduleID) errc_success).2 →
     searchDiagnostics E moduleID = []).
Proof.
  unfold searchDiagnostics.
  destruct (firstReadable_cases E (diskCandidates E moduleID) errc_success
              (diskCandidates_nonempty E moduleID)) as [[b ->]|[errno ->]]; cbn [fst snd].
  - cbn. split; [lia|]. by split; [constructor|].
  - destruct (_ || _); cbn; (split; [lia|]); (split; [|by intros [? ?]]);
      repeat constructor.
Qed.

Lemma loadInputFile_Diags (E : Env) (moduleID : AccessPathElem) (inputFile : MemoryBuffer)
    (s s' : State) (module : ModulePtr) :
  loadInputFile E moduleID inputFile s = Done module s' →
  ∃ ds, Diags s' = Diags s ++ ds
        ∧ (length ds ≤ 1)%nat
        ∧ Forall (fun d => d.1 = moduleID.2) ds.
Proof.
  intros Hload. apply loadInputFile_outcome in Hload. cbv zeta in Hload.
  destruct (ModuleFile_load E inputFile) as [[] [file|]]; try done.
  1: destruct (associateWithModule E file (length (Modules s))
                 (<[moduleID.1 := length (Modules s)]> (LoadedModules s))).1.
  all: destruct Hload as (_ & HD & _).
  all: try match type of HD with ex _ => destruct HD as [d HD] end.
  all: first [ exists []; rewrite app_nil_r; split; [exact HD|];
               split; [cbn; lia|constructor]
             | eexists [_]; split; [exact HD|]; split; [cbn; lia|];
               by repeat constructor ].
Qed.

(** X14. A completed load emits at most one diagnostic, and it is located
    at the source location carried by the path element, not at the
    [importLoc] argument, which the load ignores. *)
Theorem at_most_one_diagnostic (E : Env) (importLoc : SourceLoc) (path : AccessPathTy)
    (s s' : State) (result : option ModulePtr) :
  loadModule E importLoc path s = Done result s' →
  ∃ ds, Diags s' = Diags s ++ ds
        ∧ (length ds ≤ 1)%nat
        ∧ Forall (fun d => ∃ moduleID, head path = Some moduleID ∧ d.1 = moduleID.2) ds.
Proof.
  unfold loadModule. destruct (1 <? length path)%nat.
  { intros H; unfold mret, M_ret in H; simplify_eq.
    exists []. rewrite app_nil_r. split; [done|]. split; [cbn; lia|constructor]. }
  destruct path as [|moduleID rest]; [done|].
  unfold mbind at 1, M_bind at 1. rewrite locateInputFile_run.
  destruct (searchDiagnostics_located E moduleID) as (Hlen & Hloc & Hfound).
  assert (Hhere : ∀ ds, Forall (fun d : SourceLoc * Diag => d.1 = moduleID.2) ds →
    Forall (fun d : SourceLoc * Diag =>
              ∃ moduleID0, head (moduleID :: rest) = Some moduleID0 ∧ d.1 = moduleID0.2) ds).
  { intros ds Hds. eapply Forall_impl; [exact Hds|]. intros d Hd. by exists moduleID. }
  destruct (mjoin (Bitstreams s !! bitstreamKey E (moduleID :: rest))) as [buffer|].
  - unfold mbind, M_bind, mret, M_ret.
    destruct (loadInputFile E moduleID buffer _) as [module s2|why] eqn:Hload; [|done].
    intros [= <- <-]. apply loadInputFile_Diags in Hload as (ds & HD & Hds & Hat).
    exists ds. split; [exact HD|]. split; [done|by apply Hhere].
  - destruct (firstReadable E (diskCandidates E moduleID) errc_success).2 as [buffer|].
    + rewrite Hfound by done. unfold mbind, M_bind, mret, M_ret.
      destruct (loadInputFile E moduleID buffer _) as [module s2|why] eqn:Hload; [|done].
      intros [= <- <-]. apply loadInputFile_Diags in Hload as (ds & HD & Hds & Hat).
      exists ds. cbn in HD. rewrite app_nil_r in HD.
      split; [exact HD|]. split; [done|by apply Hhere].
    + intros H; unfold mret, M_ret in H; simplify_eq.
      exists (searchDiagnostics E moduleID). split; [done|]. split; [done|by apply Hhere].
Qed.

Lemma at_most_one_diagnostic_witness :
  let s' :=
    Sample.stateAfter (loadModule Sample.env Sample.inCwd [("Two", Sample.inSrc)])
      Sample.initial in
  Diags s' = [(Sample.inSrc, serialization_missing_dependencies "'A', 'Core', 'B'")]
  ∧ ∃ ds, Diags s' = Diags Sample.initial ++ ds
          ∧ (length ds ≤ 1)%nat
          ∧ Forall (fun d => d.1 = Sample.inSrc) ds.
Proof.
  intros s'. split; [reflexivity|].
  destruct (at_most_one_diagnostic Sample.env Sample.inCwd [("Two", Sample.inSrc)]
              Sample.initial s' (Some 0%nat)) as (ds & HD & Hlen & Hat).
  - vm_compute. reflexivity.
  - exists ds. split; [exact HD|]. split; [exact Hlen|].
    eapply Forall_impl; [exact Hat|]. intros d (moduleID & [= <-] & Hd). exact Hd.
Defined.

(** ** Every request searches *)




